(** * NCBI2wikidata: the license loader, the normalization pass and the
      report writer of [main.go], over the article schema of [efetch.go].

    Go strings are byte sequences and are modelled as [string] (a list of
    [ascii] bytes); Go maps [map[string]string] are [gmap string string],
    where the one-value read [m[k]] yields the zero value [""] for a
    missing key and the two-value read [v, ok := m[k]] is [m !! k].
    Slices grown with [append] are lists extended at the end.  A run-time
    panic (index out of range) is the [None] of the option monad. *)

From Stdlib Require Import ZArith Ascii DecimalString.
From stdpp Require Import gmap strings list fin_maps.

Local Open Scope Z_scope.

(** ** The functions of Go's [strings] and [fmt] packages that the program calls *)

Module strings.

Definition newline : ascii := "010"%char.
Definition tab : ascii := "009"%char.
Definition colon : ascii := ":"%char.

(** [s[n:]] *)
Fixpoint slice_from (n : nat) (s : string) : string :=
  match n, s with
  | O, _ => s
  | S _, EmptyString => EmptyString
  | S n', String _ s' => slice_from n' s'
  end.

(** [s[:n]] *)
Fixpoint slice_to (n : nat) (s : string) : string :=
  match n, s with
  | O, _ => EmptyString
  | S _, EmptyString => EmptyString
  | S n', String c s' => String c (slice_to n' s')
  end.

(** [len(s) >= len(prefix) && s[:len(prefix)] == prefix] *)
Definition HasPrefix (s prefix : string) : bool :=
  bool_decide (String.length prefix ≤ String.length s)%nat
  && bool_decide (slice_to (String.length prefix) s = prefix).

(** [len(s) >= len(suffix) && s[len(s)-len(suffix):] == suffix] *)
Definition HasSuffix (s suffix : string) : bool :=
  bool_decide (String.length suffix ≤ String.length s)%nat
  && bool_decide
       (slice_from (String.length s - String.length suffix) s = suffix).

Definition TrimPrefix (s prefix : string) : string :=
  if HasPrefix s prefix then slice_from (String.length prefix) s else s.

Definition TrimSuffix (s suffix : string) : string :=
  if HasSuffix s suffix
  then slice_to (String.length s - String.length suffix) s
  else s.

(** [strings.Split(s, sep)] for a separator of one byte, the only kind
    the program passes (["\t"] and [":"]): the substrings between the
    separators, one more than there are separators. *)
Fixpoint Split (s : string) (sep : ascii) : list string :=
  match s with
  | EmptyString => [EmptyString]
  | String c s' =>
      if decide (c = sep) then EmptyString :: Split s' sep
      else match Split s' sep with
           | field :: fields => String c field :: fields
           | [] => [String c EmptyString]
           end
  end.

(** [bufio.Reader.ReadString(delim)] on the unread input [rd]: the line
    up to and including the first [delim] and the remaining input, or
    [None] for the error at end of input (the bytes read so far are
    returned with the error; the caller drops them). *)
Fixpoint ReadString (rd : string) (delim : ascii) : option (string * string) :=
  match rd with
  | EmptyString => None
  | String c rd' =>
      if decide (c = delim) then Some (String c EmptyString, rd')
      else '(line, rest) ← ReadString rd' delim; Some (String c line, rest)
  end.

End strings.

Module fmt.

(** The verb [%d] on an [int]: decimal digits, a leading [-] when
    negative.  No arithmetic is done on the dates, so the 64-bit range
    of [int] plays no role and the value is a [Z]. *)
Definition d (n : Z) : string := NilZero.string_of_int (Z.to_int n).

End fmt.

(** ** [LoadLicenses] *)

(** What the loader has built so far: the map it returns and what it has
    printed on standard output. *)
Record loader_state := LoaderState {
  lookup : gmap string string;
  stdout : list string;
}.

(** The body of the loop of [LoadLicenses] after a successful read. *)
Definition process_line (line : string) (st : loader_state) : loader_state :=
  let parts := strings.Split line strings.tab in
  if decide (length parts ≠ 5%nat) then st
  else
    let pmid := parts !!! 3%nat in
    let license := strings.TrimSuffix (parts !!! 4%nat) (String strings.newline "") in
    let split_pmid := strings.Split pmid strings.colon in
    let lookup1 :=
      if decide (length split_pmid = 2%nat)
      then <[split_pmid !!! 1%nat := license]> (lookup st)
      else lookup st in
    if decide (0 < String.length (parts !!! 2%nat))%nat
    then LoaderState (<[parts !!! 2%nat := license]> lookup1) (stdout st)
    else LoaderState lookup1 (stdout st ++ [line]).

(** The read loop: [cur] is the part of the current line consumed so far,
    [rd] the unread input.  A line is handed to [process_line] when its
    newline is read; at end of input [ReadString] fails and the loop
    breaks ([LoadLicenses_loop_read] and [LoadLicenses_loop_eof] give the
    loop in terms of [strings.ReadString]). *)
Fixpoint LoadLicenses_loop (cur rd : string) (st : loader_state) : loader_state :=
  match rd with
  | EmptyString => st
  | String c rd' =>
      if decide (c = strings.newline)
      then LoadLicenses_loop "" rd' (process_line (cur +:+ String c "") st)
      else LoadLicenses_loop (cur +:+ String c "") rd' st
  end.

(** [os.Open] fails on a name the file system [fs] does not have. *)
Definition LoadLicenses (fs : gmap string string) (filename : string)
  : option loader_state :=
  match fs !! filename with
  | None => None
  | Some contents => Some (LoadLicenses_loop "" contents (LoaderState ∅ []))
  end.

(** The loader on the contents of the file. *)
Definition load (contents : string) : gmap string string :=
  lookup (LoadLicenses_loop "" contents (LoaderState ∅ [])).

Definition terminated (body : string) : string :=
  body +:+ String strings.newline "".

Fixpoint no_newline (s : string) : Prop :=
  match s with
  | EmptyString => True
  | String c s' => c ≠ strings.newline ∧ no_newline s'
  end.

(** ** The article schema of [efetch.go]

    One module per struct, so that the fields keep their Go names; the
    [XMLName] fields, which hold the element name only, are left out. *)

Module ArticleDate.
Record t := Make { Year : Z; Month : Z; Day : Z }.
End ArticleDate.

Module PublicationType.
(** [Type_] is the Go field [Type], a reserved word here. *)
Record t := Make { Type_ : string; UI : string }.
End PublicationType.

Module PublicationTypeList.
Record t := Make { PublicationTypes : list PublicationType.t }.
End PublicationTypeList.

Module PubDate.
Record t := Make { Year : Z; Month : string; Day : Z }.
End PubDate.

Module JournalIssue.
Record t := Make {
  CitedMedia : string; Volume : string; Issue : string; PubDate : PubDate.t }.
End JournalIssue.

Module Journal.
Record t := Make {
  Title : string; ISOAbbreviation : string;
  JournalIssue : JournalIssue.t; ISSN : string }.
End Journal.

Module Article.
Record t := Make {
  PubModel : string; ArticleTitle : string; Journal : Journal.t;
  Language : string; PublicationTypeList : PublicationTypeList.t;
  ArticleDate : ArticleDate.t }.
End Article.

Module MeshDescriptorName.
Record t := Make { Name : string; MeshID : string; MajorTopicYN : string }.
End MeshDescriptorName.

Module MeshQualifierName.
Record t := Make { Name : string; MeshID : string; MajorTopicYN : string }.
End MeshQualifierName.

Module MeshHeading.
Record t := Make {
  DescriptorName : MeshDescriptorName.t;
  QualifierNames : list MeshQualifierName.t }.
End MeshHeading.

Module MeshHeadingList.
Record t := Make { MeshHeadings : list MeshHeading.t }.
End MeshHeadingList.

Module CommentsCorrections.
Record t := Make { RefSource : string; PMID : string }.
End CommentsCorrections.

Module CommentsCorrectionsList.
Record t := Make { CommentsCorrections : list CommentsCorrections.t }.
End CommentsCorrectionsList.

Module MedlineCitation.
Record t := Make {
  Status : string; Owner : string; PMID : string;
  Article : list Article.t;
  MeshHeadingList : MeshHeadingList.t;
  CommentsCorrectionsList : CommentsCorrectionsList.t }.
End MedlineCitation.

Module ArticleID.
Record t := Make { ID : string; IDType : string }.
End ArticleID.

Module ArticleIdList.
Record t := Make { ArticleIDs : list ArticleID.t }.
End ArticleIdList.

Module PubMedData.
Record t := Make {
  ArticleIDList : ArticleIdList.t; PublicationStatus : string }.
End PubMedData.

Module PubmedArticle.
Record t := Make {
  MedlineCitation : MedlineCitation.t; PubMedData : PubMedData.t }.
End PubmedArticle.

(** ** The [Record] of [main.go] *)

Module Record.
Record t := Make {
  Title : string;
  MainSubjects : list MeshDescriptorName.t;
  PublicationType : string;
  PublicationDate : string;
  Publication : string;
  ISSN : string;
  License : string;
  PMID : string;
  PMCID : string }.
End Record.

(** ** The normalization pass of [main] *)

(** The zero-value read [m[k]] of a Go map. *)
Definition index (m : gmap string string) (k : string) : string :=
  default "" (m !! k).

(** The scan of the external-id list: the first entry of type ["pmc"]
    sets [pmcid] and breaks; [pmcid] keeps its zero value otherwise. *)
Fixpoint find_pmcid (ids : list ArticleID.t) : string :=
  match ids with
  | [] => ""
  | articleID :: rest =>
      if decide (ArticleID.IDType articleID = "pmc")
      then strings.TrimPrefix (ArticleID.ID articleID) "PMC"
      else find_pmcid rest
  end.

(** The two guarded reads of [license_lookup]. *)
Definition find_license (license_lookup : gmap string string)
    (pmid pmcid : string) : string :=
  let license :=
    match license_lookup !! pmid with Some l => l | None => "" end in
  if decide (license = "")
  then match license_lookup !! pmcid with Some l => l | None => license end
  else license.

(** [major] after the loop over the qualifiers of one heading. *)
Definition is_major (mesh : MeshHeading.t) : bool :=
  fold_left
    (fun major qual =>
       major || bool_decide (MeshQualifierName.MajorTopicYN qual = "Y"))
    (MeshHeading.QualifierNames mesh)
    (bool_decide
       (MeshDescriptorName.MajorTopicYN (MeshHeading.DescriptorName mesh) = "Y")).

(** The loop over the headings: the pair of [main_subject_list] and
    [subjects], both extended at the end for a major heading. *)
Definition mesh_loop (headings : list MeshHeading.t)
    (main_subject_list : list string)
  : list string * list MeshDescriptorName.t :=
  fold_left
    (fun '(msl, subjects) mesh =>
       if is_major mesh
       then (msl ++ [MeshDescriptorName.MeshID (MeshHeading.DescriptorName mesh)],
             subjects ++ [MeshHeading.DescriptorName mesh])
       else (msl, subjects))
    headings (main_subject_list, []).

(** The date of one article body, with the fallback to [ArticleDate]. *)
Definition pubdate_of (a : Article.t) : string :=
  let p := JournalIssue.PubDate (Journal.JournalIssue (Article.Journal a)) in
  let pubdate := PubDate.Month p +:+ "-" +:+ fmt.d (PubDate.Year p) in
  if bool_decide (PubDate.Year p = 0) || bool_decide (PubDate.Month p = "")
  then
    let p := Article.ArticleDate a in
    fmt.d (ArticleDate.Month p) +:+ "-" +:+ fmt.d (ArticleDate.Year p)
  else pubdate.

(** The variables of [main] that the loop over the articles updates. *)
Record loop_state := LoopState {
  records : list Record.t;
  pmcid_list : list string;
  issn_list : list string;
  main_subject_list : list string;
}.

Definition initial_state : loop_state := LoopState [] [] [] [].

(** One iteration of the loop over the articles.  Every [Article[0]] of
    the source is a lookup at index 0, which panics ([None]) on an empty
    list. *)
Definition loop_body (license_lookup : gmap string string)
    (article : PubmedArticle.t) (st : loop_state) : option loop_state :=
  let citation := PubmedArticle.MedlineCitation article in
  let bodies := MedlineCitation.Article citation in
  let pmcid :=
    find_pmcid
      (ArticleIdList.ArticleIDs
         (PubMedData.ArticleIDList (PubmedArticle.PubMedData article))) in
  let pmcid_list1 :=
    if decide (pmcid ≠ "") then pmcid_list st ++ [pmcid] else pmcid_list st in
  let license :=
    find_license license_lookup (MedlineCitation.PMID citation) pmcid in
  if decide (license = "")
  then Some (LoopState (records st) pmcid_list1 (issn_list st)
               (main_subject_list st))
  else
    let '(main_subject_list1, subjects) :=
      mesh_loop
        (MeshHeadingList.MeshHeadings (MedlineCitation.MeshHeadingList citation))
        (main_subject_list st) in
    pubdate ← pubdate_of <$> bodies !! 0%nat;
    pubtype ←
      (types ← (PublicationTypeList.PublicationTypes
                  ∘ Article.PublicationTypeList) <$> bodies !! 0%nat;
       if decide (0 < length types)%nat
       then
         types' ← (PublicationTypeList.PublicationTypes
                     ∘ Article.PublicationTypeList) <$> bodies !! 0%nat;
         PublicationType.Type_ <$> types' !! 0%nat
       else Some "");
    issn ← (Journal.ISSN ∘ Article.Journal) <$> bodies !! 0%nat;
    let issn_list1 :=
      if decide (issn ≠ "") then issn_list st ++ [issn] else issn_list st in
    title ← Article.ArticleTitle <$> bodies !! 0%nat;
    publication ← (Journal.Title ∘ Article.Journal) <$> bodies !! 0%nat;
    let r :=
      {| Record.Title := title;
         Record.PMID := MedlineCitation.PMID citation;
         Record.PMCID := pmcid;
         Record.License := license;
         Record.MainSubjects := subjects;
         Record.PublicationDate := pubdate;
         Record.Publication := publication;
         Record.ISSN := issn;
         Record.PublicationType := pubtype |} in
    Some (LoopState (records st ++ [r]) pmcid_list1 issn_list1
            main_subject_list1).

(** The loop over [fetch_resp.Articles]. *)
Fixpoint main_loop (license_lookup : gmap string string)
    (articles : list PubmedArticle.t) (st : loop_state) : option loop_state :=
  match articles with
  | [] => Some st
  | article :: rest =>
      st' ← loop_body license_lookup article st;
      main_loop license_lookup rest st'
  end.

(** ** The report writer of [main] *)

Definition CC_LICENSE_ITEM_IDS : gmap string string :=
  list_to_map
    [("CC0", "Q6938433"); ("CC BY", "Q6905323"); ("CC BY-NC-ND", "Q6937225");
     ("CC BY-NC", "Q6936496"); ("CC BY 2.5", "Q18810333");
     ("CC BY 4.0", "Q20007257")].

Definition TAB : string := String strings.tab "".
Definition NL : string := String strings.newline "".


(** The annotation [l] of one subject. *)
Definition subject_items (drug_wikidata_items disease_wikidata_items
    : gmap string string) (subject : MeshDescriptorName.t) : string :=
  let l := index drug_wikidata_items (MeshDescriptorName.MeshID subject) in
  if decide (index disease_wikidata_items (MeshDescriptorName.MeshID subject) ≠ "")
  then
    (if decide (l ≠ "") then l +:+ ", " else l)
    +:+ index disease_wikidata_items (MeshDescriptorName.MeshID subject)
  else l.

(** The loop over [record.MainSubjects] from position [idx] on. *)
Fixpoint main_subjects_loop (drug_wikidata_items disease_wikidata_items
    : gmap string string) (idx : nat) (subjects : list MeshDescriptorName.t)
    (main_subjects : string) : string :=
  match subjects with
  | [] => main_subjects
  | subject :: rest =>
      let main_subjects1 :=
        if decide (idx ≠ 0%nat) then main_subjects +:+ "; " else main_subjects in
      let main_subjects2 := main_subjects1 +:+ MeshDescriptorName.Name subject in
      let l := subject_items drug_wikidata_items disease_wikidata_items subject in
      let main_subjects3 :=
        if decide (l ≠ "") then main_subjects2 +:+ (" (" +:+ l +:+ ")")
        else main_subjects2 in
      main_subjects_loop drug_wikidata_items disease_wikidata_items
        (S idx) rest main_subjects3
  end.

(** The four maps that the identifier-resolution calls return. *)
Record resolution := Resolution {
  pmcid_wikidata_items : gmap string string;
  issn_wikidata_items : gmap string string;
  drug_wikidata_items : gmap string string;
  disease_wikidata_items : gmap string string;
}.

(** The twelve arguments of the [Sprintf] of one row, in order. *)
Definition row_fields (res : resolution) (record : Record.t) : list string :=
  let item := index (pmcid_wikidata_items res) (Record.PMCID record) in
  let issn_item := index (issn_wikidata_items res) (Record.ISSN record) in
  let main_subjects :=
    main_subjects_loop (drug_wikidata_items res) (disease_wikidata_items res)
      0 (Record.MainSubjects record) "" in
  [Record.Title record; item; Record.PMID record; Record.PMCID record;
   Record.License record; index CC_LICENSE_ITEM_IDS (Record.License record);
   main_subjects; Record.PublicationDate record; Record.Publication record;
   Record.ISSN record; issn_item; Record.PublicationType record].

(** [Sprintf] with the format of twelve [%s] separated by tabs and closed
    by a newline. *)
Fixpoint tab_separated (fields : list string) : string :=
  match fields with
  | [] => NL
  | [field] => field +:+ NL
  | field :: rest => field +:+ TAB +:+ tab_separated rest
  end.

Definition format_row (res : resolution) (record : Record.t) : string :=
  tab_separated (row_fields res record).



(** ** [main]

    The search and fetch requests and the four identifier-resolution
    calls are made by code outside [main.go] and [efetch.go]; they are
    the variables of this section, [None] standing for a returned error,
    on which [main] panics, as it does when [os.Create] fails. The result
    is what [main] writes to [results.csv]. *)

Section main.

Variable fs : gmap string string.
Variable fetch_resp : option (list PubmedArticle.t).
Variables PMCIDsToWDItem ISSNsToWDItem DrugsToWDItem DiseasesToWDItem
  : list string → option (gmap string string).
Variable create_ok : bool.


End main.

(** ** Vocabulary of the statements *)

Definition article_pmid (article : PubmedArticle.t) : string :=
  MedlineCitation.PMID (PubmedArticle.MedlineCitation article).

Definition article_bodies (article : PubmedArticle.t) : list Article.t :=
  MedlineCitation.Article (PubmedArticle.MedlineCitation article).

Definition article_ids (article : PubmedArticle.t) : list ArticleID.t :=
  ArticleIdList.ArticleIDs
    (PubMedData.ArticleIDList (PubmedArticle.PubMedData article)).

Definition article_headings (article : PubmedArticle.t) : list MeshHeading.t :=
  MeshHeadingList.MeshHeadings
    (MedlineCitation.MeshHeadingList (PubmedArticle.MedlineCitation article)).

Definition article_pmcid (article : PubmedArticle.t) : string :=
  find_pmcid (article_ids article).

Definition article_license (license_lookup : gmap string string)
    (article : PubmedArticle.t) : string :=
  find_license license_lookup (article_pmid article) (article_pmcid article).

(** The same article with another list of article bodies. *)
Definition with_bodies (article : PubmedArticle.t) (bodies : list Article.t)
  : PubmedArticle.t :=
  let c := PubmedArticle.MedlineCitation article in
  PubmedArticle.Make
    (MedlineCitation.Make (MedlineCitation.Status c) (MedlineCitation.Owner c)
       (MedlineCitation.PMID c) bodies (MedlineCitation.MeshHeadingList c)
       (MedlineCitation.CommentsCorrectionsList c))
    (PubmedArticle.PubMedData article).

Definition first_body_only (article : PubmedArticle.t) : PubmedArticle.t :=
  with_bodies article (take 1 (article_bodies article)).

(** The publication-type label read from one article body. *)
Definition pubtype_of (a : Article.t) : string :=
  match PublicationTypeList.PublicationTypes (Article.PublicationTypeList a) with
  | [] => ""
  | t :: _ => PublicationType.Type_ t
  end.

(** The major headings of a list, as the classification rule words it. *)
Definition major_heading (mesh : MeshHeading.t) : Prop :=
  MeshDescriptorName.MajorTopicYN (MeshHeading.DescriptorName mesh) = "Y"
  ∨ Exists (fun qual => MeshQualifierName.MajorTopicYN qual = "Y")
      (MeshHeading.QualifierNames mesh).

#[export] Instance major_heading_dec mesh : Decision (major_heading mesh).
Proof. unfold major_heading. apply _. Defined.

Definition major_subjects (headings : list MeshHeading.t)
  : list MeshDescriptorName.t :=
  MeshHeading.DescriptorName <$> filter major_heading headings.

(** The Record that [loop_body] assembles for an accepted article whose
    first article body is [a0]. *)
Definition assemble (license_lookup : gmap string string)
    (article : PubmedArticle.t) (a0 : Article.t) : Record.t :=
  {| Record.Title := Article.ArticleTitle a0;
     Record.PMID := article_pmid article;
     Record.PMCID := article_pmcid article;
     Record.License := article_license license_lookup article;
     Record.MainSubjects := major_subjects (article_headings article);
     Record.PublicationDate := pubdate_of a0;
     Record.Publication := Journal.Title (Article.Journal a0);
     Record.ISSN := Journal.ISSN (Article.Journal a0);
     Record.PublicationType := pubtype_of a0 |}.

(** The identifiers that the worklists take. *)
Definition nonempty (s : string) : Prop := s ≠ "".

#[export] Instance nonempty_dec s : Decision (nonempty s).
Proof. unfold nonempty. apply _. Defined.

(** The PMC-id worklist after an iteration. *)
Definition pmcid_list_after (article : PubmedArticle.t) (st : loop_state)
  : list string :=
  if decide (article_pmcid article ≠ "")
  then pmcid_list st ++ [article_pmcid article] else pmcid_list st.

(** What an iteration without a panic adds to the Records: nothing for
    an article without a license, the Record assembled from the first
    article body otherwise. *)
Definition normalize (license_lookup : gmap string string)
    (article : PubmedArticle.t) : option Record.t :=
  if decide (article_license license_lookup article = "") then None
  else assemble license_lookup article <$> head (article_bodies article).

(** An iteration produces a Record when it ends with one more Record. *)
Definition record_produced (license_lookup : gmap string string)
    (article : PubmedArticle.t) (st : loop_state) (r : Record.t) : Prop :=
  ∃ st', loop_body license_lookup article st = Some st'
         ∧ records st' = records st ++ [r].

(** An iteration drops the article when it ends, without a panic, with
    the Records it started from. *)
Definition article_dropped (license_lookup : gmap string string)
    (article : PubmedArticle.t) (st : loop_state) : Prop :=
  ∃ st', loop_body license_lookup article st = Some st'
         ∧ records st' = records st.

(** The table has a label that is not empty under [k]. *)
Definition labelled (m : gmap string string) (k : string) : Prop :=
  ∃ l, m !! k = Some l ∧ l ≠ "".

(** The first external id of the PubMed-Central type. *)
Definition first_pmc (ids : list ArticleID.t) : option ArticleID.t :=
  head (filter (fun e => ArticleID.IDType e = "pmc") ids).

(** The file made of the newline-terminated [lines] and of a last line
    [tail] without its newline. *)
Definition file_of (lines : list string) (tail : string) : string :=
  foldr (fun body rest => terminated body +:+ rest) tail lines.

(** The annotation of a subject from what its id resolves to. *)
Definition annotation (drug disease : option string) : string :=
  match drug, disease with
  | Some d, Some e => " (" +:+ d +:+ ", " +:+ e +:+ ")"
  | Some d, None => " (" +:+ d +:+ ")"
  | None, Some e => " (" +:+ e +:+ ")"
  | None, None => ""
  end.

Definition subject_column (resolve : gmap string string → string → option string)
    (drug disease : gmap string string) (subjects : list MeshDescriptorName.t)
  : string :=
  String.concat "; "
    ((fun s =>
        MeshDescriptorName.Name s
        +:+ annotation (resolve drug (MeshDescriptorName.MeshID s))
              (resolve disease (MeshDescriptorName.MeshID s))) <$> subjects).

(** An id resolves to the entry of the map when that entry is not empty. *)
Definition nonempty_entry (m : gmap string string) (k : string) : option string :=
  match m !! k with
  | Some v => if decide (v = "") then None else Some v
  | None => None
  end.

(** ** The statements of the specification that the code does not meet,
       as the specification words them *)

(** A Record iff one of the two ids is a key of the table, with the label
    of the primary id when it is a key and of the PMC id otherwise. *)
Definition license_rule_as_specified (license_lookup : gmap string string)
    (article : PubmedArticle.t) (st : loop_state) : Prop :=
  ((∃ r, record_produced license_lookup article st r)
   ↔ is_Some (license_lookup !! article_pmid article)
     ∨ is_Some (license_lookup !! article_pmcid article))
  ∧ (∀ r, record_produced license_lookup article st r →
       Some (Record.License r)
       = match license_lookup !! article_pmid article with
         | Some l => Some l
         | None => license_lookup !! article_pmcid article
         end).

(** Worklists without duplicates, PMC ids of accepted articles only,
    ISSNs not empty. *)
Definition worklists_as_specified (license_lookup : gmap string string)
    (articles : list PubmedArticle.t) : Prop :=
  ∀ st, main_loop license_lookup articles initial_state = Some st →
    NoDup (pmcid_list st) ∧ NoDup (issn_list st)
    ∧ NoDup (main_subject_list st)
    ∧ (∀ p, p ∈ pmcid_list st → ∃ r, r ∈ records st ∧ Record.PMCID r = p)
    ∧ (∀ i, i ∈ issn_list st → i ≠ "").

(** The PMC id is the first PubMed-Central id without its prefix, never
    carries the prefix, and without such an id the PMC lookup adds
    nothing to the lookup by primary id. *)
Definition pmcid_as_specified (license_lookup : gmap string string)
    (article : PubmedArticle.t) : Prop :=
  article_pmcid article
  = match first_pmc (article_ids article) with
    | Some e => strings.TrimPrefix (ArticleID.ID e) "PMC"
    | None => ""
    end
  ∧ strings.HasPrefix (article_pmcid article) "PMC" = false
  ∧ (first_pmc (article_ids article) = None →
     article_license license_lookup article
     = index license_lookup (article_pmid article)).

(** An annotation for every subject whose id is a key of a map. *)
Definition subject_column_as_specified (drug disease : gmap string string)
    (subjects : list MeshDescriptorName.t) : Prop :=
  main_subjects_loop drug disease 0 subjects ""
  = subject_column (fun m k => m !! k) drug disease subjects.

(** ** Sample inputs *)

Module Samples.

(** The lines of a license file, without their newlines: the date
    line, two papers, a paper without a license code and a paper whose
    PMID field has the prefix only. *)
Definition date_line : string := "2019-01-01 00:00:00".
Definition paper1 : string :=
  String.concat TAB ["p"; "c"; "PMC17774"; "PMID:11056661"; "CC BY"].
Definition paper2 : string :=
  String.concat TAB ["q"; "d"; "PMC17775"; "PMID:11056662"; "CC0"].
Definition paper_empty_label : string :=
  String.concat TAB ["p"; "c"; "PMC17774"; "PMID:11056661"; ""].
Definition paper_empty_key : string :=
  String.concat TAB ["p"; "c"; "PMC5"; "PMID:"; "CC BY"].

Definition oa_file : string := file_of [date_line; paper1; paper2] "".
Definition oa_file_empty_label : string := file_of [paper_empty_label] "".
Definition oa_file_empty_key : string := file_of [paper_empty_key] "".

Definition body (issn : string) (year : Z) (month : string) : Article.t :=
  Article.Make "Print" "A review" 
    (Journal.Make "Arthritis Res." "Arthritis Res"
       (JournalIssue.Make "Print" "1" "1" (PubDate.Make year month 0)) issn)
    "eng" (PublicationTypeList.Make [PublicationType.Make "Review" "D016454"])
    (ArticleDate.Make 2020 5 14).

Definition rett : MeshHeading.t :=
  MeshHeading.Make (MeshDescriptorName.Make "Rett Syndrome" "D015518" "N")
    [MeshQualifierName.Make "genetics" "Q000235" "Y"].

Definition humans : MeshHeading.t :=
  MeshHeading.Make (MeshDescriptorName.Make "Humans" "D006801" "N") [].

Definition article (pmid : string) (ids : list ArticleID.t)
    (bodies : list Article.t) : PubmedArticle.t :=
  PubmedArticle.Make
    (MedlineCitation.Make "MEDLINE" "NLM" pmid bodies
       (MeshHeadingList.Make [humans; rett]) (CommentsCorrectionsList.Make []))
    (PubMedData.Make (ArticleIdList.Make ids) "ppublish").

Definition licensed1 : PubmedArticle.t :=
  article "11056661" [ArticleID.Make "11056661" "pubmed";
                      ArticleID.Make "PMC17774" "pmc"]
    [body "1465-9905" 0 ""; body "0000-0000" 1999 "Oct"].

Definition licensed2 : PubmedArticle.t :=
  article "11056662" [ArticleID.Make "11056662" "pubmed"]
    [body "1465-9905" 1999 "Oct"].

Definition unlicensed : PubmedArticle.t :=
  article "999" [ArticleID.Make "PMC999" "pmc"] [body "1465-9905" 1999 "Oct"].

Definition double_prefix : PubmedArticle.t :=
  article "999" [ArticleID.Make "PMCPMC7" "pmc"] [body "1465-9905" 1999 "Oct"].

Definition no_pmc : PubmedArticle.t :=
  article "999" [ArticleID.Make "999" "pubmed"] [body "1465-9905" 1999 "Oct"].

Definition subject : MeshDescriptorName.t :=
  MeshDescriptorName.Make "Rett Syndrome" "D015518" "Y".

(** A fetch result: two papers of one journal around a paper without
    a license, and the state of [main] after the pass over it. *)
Definition fetched : list PubmedArticle.t :=
  [licensed1; unlicensed; licensed2].

Definition pass_state : loop_state :=
  Eval vm_compute in
    default initial_state (main_loop (load oa_file) fetched initial_state).

End Samples.

(** ** [EFetchHistoryRequest.Do] of [efetch.go]

    The HTTP and XML libraries are the variables of the section: a call
    that returns an error is [None]. What [Do] returns is paired with the
    requests it handed to [client.Do], in order. *)

Definition EFETCH_URL : string :=
  "https://eutils.ncbi.nlm.nih.gov/entrez/eutils/efetch.fcgi".

Module PubmedArticleSet.
Record t := Make { Articles : list PubmedArticle.t }.
End PubmedArticleSet.

Module EFetchHistoryRequest.
Record t := Make {
  DB : string; WebEnv : string; QueryKey : string; APIKey : string }.
End EFetchHistoryRequest.

Module http.

(** The method, the URL without its query and the query of a request. *)
Record Request := MakeRequest {
  Method : string; URL : string; RawQuery : string }.

(** [Body] is [None] when reading the body fails. *)
Record Response := MakeResponse { StatusCode : Z; Body : option string }.

Definition StatusOK : Z := 200.

End http.

Module url.

(** [Values.Add]: the value goes to the end of the values of the key. *)
Definition Add (q : gmap string (list string)) (key value : string)
  : gmap string (list string) :=
  <[key := default [] (q !! key) ++ [value]]> q.

End url.

(** The errors that [Do] returns: the ones it makes with [fmt.Errorf],
    and the ones of the libraries, which it hands on. *)
Inductive error :=
  | Errorf (message : string)
  | NewRequestError
  | ClientError
  | DecodeError.

Section efetch.

Variable NewRequest : string → string → option http.Request.
Variable ParseQuery : string → gmap string (list string).
Variable Encode : gmap string (list string) → string.
Variable client_Do : http.Request → option http.Response.
Variable Decode : option string → option PubmedArticleSet.t.

(** The request after [req.URL.RawQuery = q.Encode()]. *)
Definition with_parameters (e : EFetchHistoryRequest.t) (req : http.Request)
  : http.Request :=
  let q := ParseQuery (http.RawQuery req) in
  let q := url.Add q "api_key" (EFetchHistoryRequest.APIKey e) in
  let q := url.Add q "db" (EFetchHistoryRequest.DB e) in
  let q := url.Add q "WebEnv" (EFetchHistoryRequest.WebEnv e) in
  let q := url.Add q "query_key" (EFetchHistoryRequest.QueryKey e) in
  let q := url.Add q "retmode" "xml" in
  http.MakeRequest (http.Method req) (http.URL req) (Encode q).

Definition Do (e : EFetchHistoryRequest.t)
  : (PubmedArticleSet.t + error) * list http.Request :=
  if decide (EFetchHistoryRequest.APIKey e = "")
  then (inr (Errorf "No API Key provided."), [])
  else
    match NewRequest "GET" EFETCH_URL with
    | None => (inr NewRequestError, [])
    | Some req =>
        let req := with_parameters e req in
        match client_Do req with
        | None => (inr ClientError, [req])
        | Some resp =>
            if decide (http.StatusCode resp ≠ http.StatusOK)
            then
              match http.Body resp with
              | None =>
                  (inr (Errorf ("Status code " +:+ fmt.d (http.StatusCode resp))),
                   [req])
              | Some body =>
                  (inr (Errorf ("Status code " +:+ fmt.d (http.StatusCode resp)
                                +:+ ": " +:+ body)),
                   [req])
              end
            else
              match Decode (http.Body resp) with
              | None => (inr DecodeError, [req])
              | Some efetch_resp => (inl efetch_resp, [req])
              end
        end
    end.

End efetch.

(** ** [main] with its fetch request

    [ESearchResponse] has the fields of the search response that [main]
    reads; the search request itself is made by code outside the two
    files and is the variable [search_Do], from the API key to the
    response. [getenv] is the value of [NCBI_API_KEY]. *)

Module ESearchResponse.
Record t := Make {
  IDs : list string; Count : string; WebEnv : string; QueryKey : string }.
End ESearchResponse.

Section main_fetching.

Variable fs : gmap string string.
Variable getenv : string.
Variable search_Do : string → option ESearchResponse.t.
Variable NewRequest : string → string → option http.Request.
Variable ParseQuery : string → gmap string (list string).
Variable Encode : gmap string (list string) → string.
Variable client_Do : http.Request → option http.Response.
Variable Decode : option string → option PubmedArticleSet.t.
Variables PMCIDsToWDItem ISSNsToWDItem DrugsToWDItem DiseasesToWDItem
  : list string → option (gmap string (string)).
Variable create_ok : bool.



End main_fetching.

(** ** Vocabulary of the further statements *)

(** The byte [c] does not occur in [s]. *)
Fixpoint free_of (c : ascii) (s : string) : Prop :=
  match s with
  | EmptyString => True
  | String c' s' => c' ≠ c ∧ free_of c s'
  end.

(** A string that can stand in a cell of a tab-separated line. *)
Definition clean (s : string) : Prop :=
  free_of strings.tab s ∧ free_of strings.newline s.

(** The list with the byte [c] put at the end of its last string. *)
Fixpoint append_to_last (c : ascii) (fields : list string) : list string :=
  match fields with
  | [] => []
  | [field] => [field +:+ String c ""]
  | field :: rest => field :: append_to_last c rest
  end.

(** The license that [process_line] reads from a line. *)
Definition line_license (line : string) : string :=
  strings.TrimSuffix (strings.Split line strings.tab !!! 4%nat) NL.

(** The keys under which [process_line] stores the license of a line, in
    the order of the two stores. *)
Definition line_keys (line : string) : list string :=
  let parts := strings.Split line strings.tab in
  if decide (length parts ≠ 5%nat) then []
  else
    let split_pmid := strings.Split (parts !!! 3%nat) strings.colon in
    (if decide (length split_pmid = 2%nat) then [split_pmid !!! 1%nat] else [])
    ++ (if decide (0 < String.length (parts !!! 2%nat))%nat
        then [parts !!! 2%nat] else []).

(** The lines that [process_line] prints: five fields, the third empty. *)
Definition line_echoed (line : string) : Prop :=
  length (strings.Split line strings.tab) = 5%nat
  ∧ strings.Split line strings.tab !!! 2%nat = "".

#[export] Instance line_echoed_dec line : Decision (line_echoed line).
Proof. unfold line_echoed. apply _. Defined.

(** The article has a license in the table. *)
Definition licensed (license_lookup : gmap string string)
    (article : PubmedArticle.t) : Prop :=
  article_license license_lookup article ≠ "".

#[export] Instance licensed_dec license_lookup article :
  Decision (licensed license_lookup article).
Proof. unfold licensed. apply _. Defined.

(** The labels of [CC_LICENSE_ITEM_IDS]. *)
Definition known_labels : list string :=
  ["CC0"; "CC BY"; "CC BY-NC-ND"; "CC BY-NC"; "CC BY 2.5"; "CC BY 4.0"].

(** ** Further sample inputs *)

Module Fixtures.

(** A paper of the license file that has a PMC id and no PMID. *)
Definition paper_pmc_only : string :=
  String.concat TAB ["r"; "e"; "PMC17776"; ""; "CC BY-NC"].

(** The first sample paper again, with another license. *)
Definition paper_relicensed : string :=
  String.concat TAB ["p"; "c"; "PMC17774"; "PMID:11056661"; "CC BY-NC"].

(** A paper without a PMC id. *)
Definition paper_no_pmc : string :=
  String.concat TAB ["s"; "f"; ""; "PMID:11056663"; "CC BY"].

(** The article that the line [paper_pmc_only] is about. *)
Definition pmc_only : PubmedArticle.t :=
  Samples.article "11056664" [ArticleID.Make "PMC17776" "pmc"]
    [Samples.body "1465-9905" 1999 "Oct"].

(** A licensed article without an article body. *)
Definition bodiless : PubmedArticle.t :=
  Samples.article "11056662" [] [].

Definition record : Record.t :=
  Record.Make "A review" [Samples.subject] "Review" "Oct-1999"
    "Arthritis Res." "1465-9905" "CC BY" "11056661" "17774".

Definition request : EFetchHistoryRequest.t :=
  EFetchHistoryRequest.Make "pubmed" "MCID_1" "1" "secret".

Definition NewRequest (method target : string) : option http.Request :=
  Some (http.MakeRequest method target "").

(** An encoding of the query that keeps what [Encode] is given apart:
    the values of the five parameters, in the order of their keys. *)
Definition Encode (q : gmap string (list string)) : string :=
  String.concat "&"
    ((fun key => key +:+ "=" +:+ String.concat "," (default [] (q !! key)))
       <$> ["WebEnv"; "api_key"; "db"; "query_key"; "retmode"]).

Definition fetched_set : PubmedArticleSet.t :=
  PubmedArticleSet.Make Samples.fetched.

Definition Decode (body : option string) : option PubmedArticleSet.t :=
  match body with
  | Some "<PubmedArticleSet/>" => Some fetched_set
  | _ => None
  end.

Definition server (status : Z) (req : http.Request) : option http.Response :=
  Some (http.MakeResponse status (Some "<PubmedArticleSet/>")).

End Fixtures.

(** The number of times the byte [c] occurs in [s]. *)
Fixpoint occurrences (c : ascii) (s : string) : nat :=
  match s with
  | EmptyString => 0
  | String c' s' =>
      if decide (c' = c) then S (occurrences c s') else occurrences c s'
  end.

(** ** The output file as a text *)










(** * Proofs *)

(** ** Strings *)

Section string_facts.
Implicit Types s t u : string.

Lemma append_nil_l s : "" +:+ s = s.
Proof. reflexivity. Qed.

Lemma append_cons c s t : String c s +:+ t = String c (s +:+ t).
Proof. reflexivity. Qed.

Lemma append_nil_r s : s +:+ "" = s.
Proof. induction s as [|c s IH]; [done|]. by rewrite append_cons, IH. Qed.

Lemma append_assoc s t u : (s +:+ t) +:+ u = s +:+ (t +:+ u).
Proof.
  induction s as [|c s IH]; [done|]. by rewrite !append_cons, IH.
Qed.

Lemma append_snoc s c t : (s +:+ String c "") +:+ t = s +:+ String c t.
Proof. by rewrite append_assoc. Qed.

Lemma length_append s t :
  String.length (s +:+ t) = (String.length s + String.length t)%nat.
Proof.
  induction s as [|c s IH]; [done|]. rewrite append_cons. simpl. by rewrite IH.
Qed.
End string_facts.

(** ** The read loop of the loader *)

Lemma ReadString_line body rest :
  no_newline body →
  strings.ReadString (terminated body +:+ rest) strings.newline
  = Some (terminated body, rest).
Proof.
  unfold terminated. induction body as [|c body IH]; intros Hb.
  - reflexivity.
  - destruct Hb as [Hc Hb]. rewrite !append_cons. simpl.
    rewrite decide_False by done. by rewrite (IH Hb).
Qed.

Lemma ReadString_eof tail :
  no_newline tail → strings.ReadString tail strings.newline = None.
Proof.
  induction tail as [|c tail IH]; [done|]. intros [Hc Ht]. simpl.
  rewrite decide_False by done. by rewrite (IH Ht).
Qed.

(** A successful read hands the line to [process_line] and the loop goes
    on with the rest of the input. *)
Lemma LoadLicenses_loop_read rd : ∀ cur line rest st,
  strings.ReadString rd strings.newline = Some (line, rest) →
  LoadLicenses_loop cur rd st
  = LoadLicenses_loop "" rest (process_line (cur +:+ line) st).
Proof.
  induction rd as [|c rd IH]; intros cur line rest st; simpl; [done|].
  destruct (decide (c = strings.newline)) as [->|Hc].
  - by intros [= <- <-].
  - destruct (strings.ReadString rd strings.newline) as [[l r]|] eqn:Hrd;
      simpl; [|done].
    intros [= <- <-]. rewrite (IH _ _ _ _ eq_refl). by rewrite append_snoc.
Qed.

(** A failed read ends the loop with the state unchanged. *)
Lemma LoadLicenses_loop_eof rd : ∀ cur st,
  strings.ReadString rd strings.newline = None →
  LoadLicenses_loop cur rd st = st.
Proof.
  induction rd as [|c rd IH]; intros cur st; simpl; [done|].
  destruct (decide (c = strings.newline)) as [->|Hc]; [done|].
  destruct (strings.ReadString rd strings.newline) as [[l r]|] eqn:Hrd;
    simpl; [done|].
  intros _. by apply IH.
Qed.

Lemma LoadLicenses_loop_lines lines : ∀ tail st,
  Forall no_newline lines → no_newline tail →
  LoadLicenses_loop "" (file_of lines tail) st
  = fold_left (fun st body => process_line (terminated body) st) lines st.
Proof.
  induction lines as [|body lines IH]; intros tail st Hl Ht; simpl.
  - by apply LoadLicenses_loop_eof, ReadString_eof.
  - apply Forall_cons in Hl as [Hb Hl].
    rewrite (LoadLicenses_loop_read _ _ _ _ _ (ReadString_line _ _ Hb)).
    by rewrite append_nil_l, IH.
Qed.

(** Input after the last newline changes nothing, whatever precedes it. *)
Lemma LoadLicenses_loop_tail contents : ∀ cur tail st,
  no_newline tail →
  LoadLicenses_loop cur (contents +:+ tail) st
  = LoadLicenses_loop cur contents st.
Proof.
  induction contents as [|c contents IH]; intros cur tail st Ht.
  - rewrite append_nil_l. simpl.
    by apply LoadLicenses_loop_eof, ReadString_eof.
  - rewrite append_cons. simpl. destruct (decide (c = strings.newline));
      by apply IH.
Qed.

(** C8. A line of the license file that does not split on tab into
    exactly five fields registers no mapping and prints nothing: the
    loader's map and its output are unchanged by the line, and loading
    continues with the next line. *)
Theorem malformed_line_skipped (body rest : string) (st : loader_state) :
  no_newline body →
  length (strings.Split (terminated body) strings.tab) ≠ 5%nat →
  process_line (terminated body) st = st
  ∧ LoadLicenses_loop "" (terminated body +:+ rest) st
    = LoadLicenses_loop "" rest st.
Proof.
  intros Hb Hn.
  assert (process_line (terminated body) st = st) as Hskip.
  { unfold process_line. by rewrite decide_True. }
  split; [done|].
  rewrite (LoadLicenses_loop_read _ _ _ _ _ (ReadString_line _ _ Hb)).
  by rewrite append_nil_l, Hskip.
Qed.

Lemma malformed_line_skipped_witness :
  let st := LoaderState {[ "1" := "CC0" ]} ["earlier output"] in
  process_line (terminated "2019-01-01 00:00:00") st = st
  ∧ LoadLicenses_loop "" (terminated "2019-01-01 00:00:00" +:+ "rest") st
    = LoadLicenses_loop "" "rest" st.
Proof.
  apply (malformed_line_skipped "2019-01-01 00:00:00" "rest").
  - vm_compute. repeat split; discriminate.
  - vm_compute. discriminate.
Defined.

(** C10. The last line of a license file, when no newline ends it,
    registers no mapping, whatever its fields: the loader processes the
    newline-terminated lines, in order, and nothing else. *)
Theorem unterminated_last_line_ignored (fs : gmap string string)
    (filename : string) (lines : list string) (tail : string) :
  fs !! filename = Some (file_of lines tail) →
  Forall no_newline lines → no_newline tail →
  LoadLicenses fs filename
  = Some (fold_left (fun st body => process_line (terminated body) st)
            lines (LoaderState ∅ []))
  ∧ LoadLicenses fs filename = LoadLicenses (<[filename := file_of lines ""]> fs) filename.
Proof.
  intros Hf Hl Ht. unfold LoadLicenses.
  rewrite Hf, lookup_insert_eq, !LoadLicenses_loop_lines; done.
Qed.

Lemma unterminated_last_line_ignored_witness :
  let fs : gmap string string :=
    {[ "oa_file_list.txt" := file_of [Samples.date_line; Samples.paper1]
                               Samples.paper2 ]} in
  LoadLicenses fs "oa_file_list.txt"
  = Some (LoaderState
            (<["PMC17774" := "CC BY"]> {[ "11056661" := "CC BY" ]}) []).
Proof.
  intros fs.
  destruct (unterminated_last_line_ignored fs "oa_file_list.txt"
              [Samples.date_line; Samples.paper1] Samples.paper2) as [-> _].
  - reflexivity.
  - repeat apply Forall_cons_2; try apply Forall_nil;
      vm_compute; repeat split; discriminate.
  - vm_compute; repeat split; discriminate.
  - reflexivity.
Defined.

(** ** One iteration of the normalization loop *)

Lemma is_major_fold (quals : list MeshQualifierName.t) : ∀ major : bool,
  fold_left
    (fun major qual =>
       major || bool_decide (MeshQualifierName.MajorTopicYN qual = "Y"))
    quals major = true
  ↔ major = true
    ∨ Exists (fun qual => MeshQualifierName.MajorTopicYN qual = "Y") quals.
Proof.
  induction quals as [|qual quals IH]; intros major; simpl.
  - rewrite Exists_nil. tauto.
  - rewrite IH, Exists_cons, orb_true_iff, bool_decide_eq_true. tauto.
Qed.

Lemma is_major_spec (mesh : MeshHeading.t) :
  is_major mesh = true ↔ major_heading mesh.
Proof.
  unfold is_major, major_heading.
  by rewrite is_major_fold, bool_decide_eq_true.
Qed.

Lemma mesh_loop_fold (headings : list MeshHeading.t) : ∀ msl subjects,
  fold_left
    (fun '(msl, subjects) mesh =>
       if is_major mesh
       then (msl ++ [MeshDescriptorName.MeshID (MeshHeading.DescriptorName mesh)],
             subjects ++ [MeshHeading.DescriptorName mesh])
       else (msl, subjects))
    headings (msl, subjects)
  = (msl ++ (MeshDescriptorName.MeshID <$> major_subjects headings),
     subjects ++ major_subjects headings).
Proof.
  unfold major_subjects.
  induction headings as [|mesh headings IH]; intros msl subjects; simpl.
  - by rewrite !app_nil_r.
  - rewrite filter_cons. destruct (is_major mesh) eqn:Hm.
    + apply is_major_spec in Hm. rewrite decide_True by done.
      rewrite IH. simpl. by rewrite <- !app_assoc.
    + rewrite decide_False; [apply IH|].
      intros Hmaj%is_major_spec. congruence.
Qed.

Lemma mesh_loop_spec (headings : list MeshHeading.t) (msl : list string) :
  mesh_loop headings msl
  = (msl ++ (MeshDescriptorName.MeshID <$> major_subjects headings),
     major_subjects headings).
Proof. unfold mesh_loop. by rewrite mesh_loop_fold. Qed.

Lemma loop_body_drop lookup article st :
  article_license lookup article = "" →
  loop_body lookup article st
  = Some (LoopState (records st) (pmcid_list_after article st) (issn_list st)
            (main_subject_list st)).
Proof.
  intros Hl. unfold loop_body.
  change (find_license _ _ _) with (article_license lookup article).
  by rewrite decide_True.
Qed.

Lemma loop_body_panic lookup article st :
  article_license lookup article ≠ "" → article_bodies article = [] →
  loop_body lookup article st = None.
Proof.
  intros Hl Hb. unfold loop_body.
  change (find_license _ _ _) with (article_license lookup article).
  rewrite decide_False by done.
  change (MedlineCitation.Article _) with (article_bodies article).
  rewrite Hb. by destruct (mesh_loop _ _).
Qed.

Lemma loop_body_accept lookup article st a0 rest :
  article_license lookup article ≠ "" → article_bodies article = a0 :: rest →
  loop_body lookup article st
  = Some (LoopState (records st ++ [assemble lookup article a0])
            (pmcid_list_after article st)
            (if decide (Journal.ISSN (Article.Journal a0) ≠ "")
             then issn_list st ++ [Journal.ISSN (Article.Journal a0)]
             else issn_list st)
            (main_subject_list st
             ++ (MeshDescriptorName.MeshID
                   <$> major_subjects (article_headings article)))).
Proof.
  intros Hl Hb. unfold loop_body.
  change (find_license _ _ _) with (article_license lookup article).
  rewrite decide_False by done.
  change (MedlineCitation.Article _) with (article_bodies article).
  change (MeshHeadingList.MeshHeadings _) with (article_headings article).
  rewrite mesh_loop_spec, Hb. simpl.
  unfold assemble, pubtype_of.
  destruct (PublicationTypeList.PublicationTypes
              (Article.PublicationTypeList a0)) as [|t types]; reflexivity.
Qed.

Lemma snoc_neq {A} (l : list A) (x : A) : l ≠ l ++ [x].
Proof.
  intros H%(f_equal length). rewrite length_app in H. simpl in H. lia.
Qed.

(** A Record is produced exactly for a licensed article with an article
    body, and it is the Record assembled from the first body. *)
Lemma record_produced_inv lookup article st r :
  record_produced lookup article st r →
  article_license lookup article ≠ ""
  ∧ ∃ a0, article_bodies article !! 0%nat = Some a0
          ∧ r = assemble lookup article a0.
Proof.
  intros (st' & Hbody & Hrec).
  destruct (decide (article_license lookup article = "")) as [Hl|Hl].
  - rewrite (loop_body_drop _ _ _ Hl) in Hbody. injection Hbody as <-.
    simpl in Hrec. by apply snoc_neq in Hrec.
  - split; [done|].
    destruct (article_bodies article) as [|a0 rest] eqn:Hb.
    + by rewrite (loop_body_panic _ _ _ Hl Hb) in Hbody.
    + rewrite (loop_body_accept _ _ _ _ _ Hl Hb) in Hbody.
      injection Hbody as <-. simpl in Hrec.
      apply app_inj_tail in Hrec as [_ <-]. by exists a0.
Qed.

Lemma record_produced_intro lookup article st a0 rest :
  article_license lookup article ≠ "" → article_bodies article = a0 :: rest →
  record_produced lookup article st (assemble lookup article a0).
Proof.
  intros Hl Hb. eexists. by rewrite (loop_body_accept _ _ _ _ _ Hl Hb).
Qed.

(** ** The license lookup *)

Lemma labelled_index (m : gmap string string) (k : string) :
  labelled m k ↔ index m k ≠ "".
Proof.
  unfold labelled, index. destruct (m !! k) as [l|]; simpl.
  - split; [by intros (? & [= <-] & ?)|eauto].
  - split; [by intros (? & ? & ?)|done].
Qed.

Lemma find_license_spec (lookup : gmap string string) (pmid pmcid : string) :
  find_license lookup pmid pmcid
  = if decide (index lookup pmid ≠ "") then index lookup pmid
    else index lookup pmcid.
Proof.
  unfold find_license, index.
  destruct (lookup !! pmid) as [l|]; simpl.
  - destruct (decide (l = "")) as [->|Hl].
    + case_decide; [done|]. by destruct (lookup !! pmcid).
    + by rewrite decide_True.
  - by destruct (lookup !! pmcid).
Qed.

Lemma find_license_labelled (lookup : gmap string string) (pmid pmcid : string) :
  find_license lookup pmid pmcid ≠ ""
  ↔ labelled lookup pmid ∨ labelled lookup pmcid.
Proof.
  rewrite find_license_spec, !labelled_index.
  destruct (decide (index lookup pmid ≠ "")); tauto.
Qed.

(** C1, as amended. For an article with at least one article body, a
    Record is produced if and only if the license table has a non-empty
    label under the article's primary id or under its extracted PMC id;
    the Record's label is the one under the primary id when that is not
    empty and the one under the PMC id otherwise; with no such label the
    article is dropped and the pass goes on. *)
Theorem license_rule (lookup : gmap string string) (article : PubmedArticle.t)
    (st : loop_state) (a0 : Article.t) (rest : list Article.t) :
  article_bodies article = a0 :: rest →
  ((∃ r, record_produced lookup article st r)
   ↔ labelled lookup (article_pmid article)
     ∨ labelled lookup (article_pmcid article))
  ∧ (∀ r, record_produced lookup article st r →
       (labelled lookup (article_pmid article) →
        Record.License r = index lookup (article_pmid article))
       ∧ (¬ labelled lookup (article_pmid article) →
          Record.License r = index lookup (article_pmcid article)))
  ∧ (¬ (labelled lookup (article_pmid article)
        ∨ labelled lookup (article_pmcid article)) →
     article_dropped lookup article st).
Proof.
  intros Hb. rewrite <- find_license_labelled.
  change (find_license _ _ _) with (article_license lookup article).
  split; [|split].
  - split.
    + intros [r Hr]. by apply record_produced_inv in Hr as [? _].
    + intros Hl. eexists. by eapply record_produced_intro.
  - intros r (_ & a & _ & ->)%record_produced_inv. simpl.
    unfold article_license. rewrite find_license_spec, !labelled_index.
    destruct (decide (index lookup (article_pmid article) ≠ "")); tauto.
  - intros Hl. apply dec_stable in Hl. eexists.
    by rewrite (loop_body_drop _ _ _ Hl).
Qed.

Lemma license_rule_witness :
  ∃ r, record_produced (load Samples.oa_file) Samples.licensed1 initial_state r
       ∧ Record.License r = "CC BY".
Proof.
  assert (labelled (load Samples.oa_file) (article_pmid Samples.licensed1))
    as Hlab.
  { exists "CC BY". vm_compute. split; [reflexivity|discriminate]. }
  destruct (license_rule (load Samples.oa_file) Samples.licensed1 initial_state
              (Samples.body "1465-9905" 0 "")
              [Samples.body "0000-0000" 1999 "Oct"] eq_refl)
    as (Hiff & Hlabel & _).
  destruct (proj2 Hiff (or_introl Hlab)) as [r Hr].
  exists r. split; [exact Hr|].
  destruct (Hlabel r Hr) as [Hpmid _]. rewrite (Hpmid Hlab). reflexivity.
Defined.

(** C1, as the specification words it, fails: the primary id of the
    article is a key of the table loaded from a line whose license field
    is empty, and no Record is produced. *)
Lemma license_rule_as_specified_fails :
  ¬ license_rule_as_specified (load Samples.oa_file_empty_label)
      Samples.licensed1 initial_state
  ∧ load Samples.oa_file_empty_label !! "11056661" = Some ""
  ∧ loop_body (load Samples.oa_file_empty_label) Samples.licensed1 initial_state
    = Some (LoopState [] ["17774"] [] []).
Proof.
  split; [|split; reflexivity].
  intros [Hiff _].
  destruct (proj2 Hiff) as [r Hr].
  { left. exists "". reflexivity. }
  apply record_produced_inv in Hr as [Hl _]. by apply Hl.
Qed.

(** ** The extraction of the PMC id *)

Lemma slice_split (n : nat) : ∀ s : string,
  strings.slice_to n s +:+ strings.slice_from n s = s.
Proof.
  induction n as [|n IH]; intros [|c s]; simpl; try done.
  by rewrite append_cons, IH.
Qed.

Lemma TrimPrefix_spec (s prefix : string) :
  (strings.HasPrefix s prefix = true ∧ prefix +:+ strings.TrimPrefix s prefix = s)
  ∨ (strings.HasPrefix s prefix = false ∧ strings.TrimPrefix s prefix = s).
Proof.
  unfold strings.TrimPrefix.
  destruct (strings.HasPrefix s prefix) eqn:Hp; [left|by right].
  split; [done|]. unfold strings.HasPrefix in Hp.
  apply andb_true_iff in Hp as [_ Hp%bool_decide_eq_true].
  rewrite <- Hp at 1. apply slice_split.
Qed.

Lemma find_pmcid_first (ids : list ArticleID.t) :
  find_pmcid ids
  = match first_pmc ids with
    | Some e => strings.TrimPrefix (ArticleID.ID e) "PMC"
    | None => ""
    end.
Proof.
  unfold first_pmc. induction ids as [|e ids IH]; simpl; [done|].
  rewrite filter_cons. by destruct (decide (ArticleID.IDType e = "pmc")).
Qed.

(** C5, as amended. The PMC id of an article is the id of the first
    external-id entry of type "pmc" with one leading "PMC" removed when
    the id starts with it, and that id unchanged otherwise; it is the
    PMC id of the article's Record; without such an entry it is the
    empty string, and the license is then the one found under the
    primary id, provided the table has no non-empty label under the
    empty key. *)
Theorem pmcid_extraction (lookup : gmap string string)
    (article : PubmedArticle.t) :
  article_pmcid article
  = match first_pmc (article_ids article) with
    | Some e => strings.TrimPrefix (ArticleID.ID e) "PMC"
    | None => ""
    end
  ∧ (∀ e, first_pmc (article_ids article) = Some e →
       (strings.HasPrefix (ArticleID.ID e) "PMC" = true
        ∧ "PMC" +:+ article_pmcid article = ArticleID.ID e)
       ∨ (strings.HasPrefix (ArticleID.ID e) "PMC" = false
          ∧ article_pmcid article = ArticleID.ID e))
  ∧ (∀ st r, record_produced lookup article st r →
       Record.PMCID r = article_pmcid article)
  ∧ (first_pmc (article_ids article) = None →
     ¬ labelled lookup "" →
     article_pmcid article = ""
     ∧ article_license lookup article = index lookup (article_pmid article)).
Proof.
  assert (article_pmcid article
          = match first_pmc (article_ids article) with
            | Some e => strings.TrimPrefix (ArticleID.ID e) "PMC"
            | None => ""
            end) as Hfirst by apply find_pmcid_first.
  split; [done|]. split; [|split].
  - intros e He. rewrite Hfirst, He. apply TrimPrefix_spec.
  - by intros st r (_ & a & _ & ->)%record_produced_inv.
  - intros Hnone Hempty. rewrite Hnone in Hfirst. split; [done|].
    unfold article_license. rewrite find_license_spec, Hfirst.
    case_decide as Hpmid; [done|].
    rewrite labelled_index in Hempty.
    apply dec_stable in Hempty. by rewrite Hempty, Hpmid.
Qed.

Lemma pmcid_extraction_witness :
  article_pmcid Samples.no_pmc = ""
  ∧ article_license (load Samples.oa_file) Samples.no_pmc
    = index (load Samples.oa_file) "999".
Proof.
  destruct (pmcid_extraction (load Samples.oa_file) Samples.no_pmc)
    as (_ & _ & _ & Hnone).
  apply Hnone.
  - reflexivity.
  - intros (l & Hl & _). vm_compute in Hl. discriminate.
Defined.

(** C5, as the specification words it, fails twice: an id with the
    prefix twice keeps one prefix, and an article without a PMC id is
    licensed through the empty key that a line with the bare field
    [PMID:] puts in the table. *)
Lemma pmcid_as_specified_fails :
  ¬ pmcid_as_specified ∅ Samples.double_prefix
  ∧ ¬ pmcid_as_specified (load Samples.oa_file_empty_key) Samples.no_pmc.
Proof.
  split.
  - intros (_ & Hp & _). vm_compute in Hp. discriminate.
  - intros (_ & _ & Hl). specialize (Hl eq_refl). vm_compute in Hl.
    discriminate.
Qed.

(** ** The whole normalization pass *)

Lemma loop_body_spec lookup article st st' :
  loop_body lookup article st = Some st' →
  records st' = records st ++ option_list (normalize lookup article)
  ∧ pmcid_list st' = pmcid_list st ++ filter nonempty [article_pmcid article]
  ∧ issn_list st'
    = issn_list st
      ++ filter nonempty (Record.ISSN <$> option_list (normalize lookup article))
  ∧ main_subject_list st'
    = main_subject_list st
      ++ concat ((fun r => MeshDescriptorName.MeshID <$> Record.MainSubjects r)
                   <$> option_list (normalize lookup article)).
Proof.
  assert (pmcid_list_after article st
          = pmcid_list st ++ filter nonempty [article_pmcid article]) as Hp.
  { unfold pmcid_list_after, nonempty. rewrite filter_cons, filter_nil.
    case_decide; [done|by rewrite app_nil_r]. }
  unfold normalize.
  destruct (decide (article_license lookup article = "")) as [Hl|Hl].
  - rewrite (loop_body_drop _ _ _ Hl). intros [= <-]. simpl.
    by rewrite Hp, !app_nil_r.
  - destruct (article_bodies article) as [|a0 rest] eqn:Hb.
    + by rewrite (loop_body_panic _ _ _ Hl Hb).
    + rewrite (loop_body_accept _ _ _ _ _ Hl Hb). intros [= <-]. simpl.
      rewrite Hp, app_nil_r, !filter_cons, !filter_nil. unfold nonempty.
      by repeat case_decide; rewrite ?app_nil_r.
Qed.

Lemma main_loop_spec lookup articles : ∀ st st',
  main_loop lookup articles st = Some st' →
  records st' = records st ++ omap (normalize lookup) articles
  ∧ pmcid_list st'
    = pmcid_list st ++ filter nonempty (article_pmcid <$> articles)
  ∧ issn_list st'
    = issn_list st
      ++ filter nonempty (Record.ISSN <$> omap (normalize lookup) articles)
  ∧ main_subject_list st'
    = main_subject_list st
      ++ concat ((fun r => MeshDescriptorName.MeshID <$> Record.MainSubjects r)
                   <$> omap (normalize lookup) articles).
Proof.
  induction articles as [|article articles IH]; intros st st'; simpl.
  - intros [= <-]. by rewrite !app_nil_r.
  - destruct (loop_body lookup article st) as [st1|] eqn:Hbody; simpl; [|done].
    intros Hrest. apply loop_body_spec in Hbody as (Hr & Hp & Hi & Hs).
    apply IH in Hrest as (-> & -> & -> & ->).
    rewrite Hr, Hp, Hi, Hs, <- !app_assoc. rewrite filter_cons, filter_nil.
    unfold nonempty at 1 3.
    destruct (normalize lookup article) as [r|]; simpl;
      rewrite ?filter_cons, ?filter_nil; unfold nonempty;
      repeat case_decide; rewrite ?app_nil_r; done.
Qed.

(** C2, as amended. After a normalization pass that ends without a
    panic, the PMC-id worklist is the list, in article order, of the
    non-empty PMC ids extracted from all the articles, accepted or
    dropped; the ISSN worklist is the list of the non-empty ISSNs of the
    accepted Records, in order; the subject worklist is the list of the
    ids of the accepted Records' major subjects, in order. An identifier
    is listed once for each time it is met. *)
Theorem worklist_contents (lookup : gmap string string)
    (articles : list PubmedArticle.t) (st : loop_state) :
  main_loop lookup articles initial_state = Some st →
  records st = omap (normalize lookup) articles
  ∧ pmcid_list st = filter nonempty (article_pmcid <$> articles)
  ∧ issn_list st = filter nonempty (Record.ISSN <$> records st)
  ∧ main_subject_list st
    = concat ((fun r => MeshDescriptorName.MeshID <$> Record.MainSubjects r)
                <$> records st)
  ∧ Forall nonempty (pmcid_list st) ∧ Forall nonempty (issn_list st).
Proof.
  intros (Hr & Hp & Hi & Hs)%main_loop_spec. simpl in *.
  rewrite Hr, Hp, Hi, Hs. repeat split; try done.
  - apply Forall_forall. by intros p [? _]%list_elem_of_filter.
  - apply Forall_forall. by intros p [? _]%list_elem_of_filter.
Qed.

Lemma worklist_contents_witness :
  main_loop (load Samples.oa_file) Samples.fetched initial_state
  = Some Samples.pass_state
  ∧ pmcid_list Samples.pass_state = ["17774"; "999"]
  ∧ issn_list Samples.pass_state = ["1465-9905"; "1465-9905"]
  ∧ main_subject_list Samples.pass_state = ["D015518"; "D015518"].
Proof.
  assert (main_loop (load Samples.oa_file) Samples.fetched initial_state
          = Some Samples.pass_state) as Hpass by (vm_compute; reflexivity).
  destruct (worklist_contents _ _ _ Hpass) as (_ & Hp & Hi & Hs & _).
  split; [exact Hpass|]. rewrite Hp, Hi, Hs. repeat split.
Defined.

(** C2, as the specification words it, fails on a fetch result with two
    accepted papers of one journal around a dropped paper that has a PMC
    id: the ISSN is listed twice, and the PMC id of the dropped paper is
    in the PMC-id worklist. *)
Lemma worklists_as_specified_fails :
  ¬ worklists_as_specified (load Samples.oa_file) Samples.fetched
  ∧ "999" ∈ pmcid_list Samples.pass_state
  ∧ "999" ∉ Record.PMCID <$> records Samples.pass_state.
Proof.
  split; [|split].
  - intros H. destruct (H Samples.pass_state) as (_ & Hissn & _).
    { vm_compute. reflexivity. }
    apply NoDup_cons in Hissn as [Hin _]. apply Hin. left.
  - right. left.
  - intros Hin. vm_compute in Hin.
    repeat (apply elem_of_cons in Hin as [Hin|Hin]; [discriminate|]).
    by apply elem_of_nil in Hin.
Qed.

(** ** The first article body *)

Lemma loop_body_first_only lookup article st :
  loop_body lookup (first_body_only article) st = loop_body lookup article st.
Proof.
  destruct (decide (article_license lookup article = "")) as [Hl|Hl].
  - by rewrite !loop_body_drop.
  - destruct (article_bodies article) as [|a0 rest] eqn:Hb.
    + rewrite !loop_body_panic; try done.
      unfold first_body_only. by rewrite Hb.
    + rewrite (loop_body_accept _ _ _ _ _ Hl Hb).
      rewrite (loop_body_accept _ (first_body_only article) _ a0 []); try done.
      unfold first_body_only. by rewrite Hb.
Qed.

Lemma main_loop_first_only lookup articles : ∀ st,
  main_loop lookup (first_body_only <$> articles) st
  = main_loop lookup articles st.
Proof.
  induction articles as [|article articles IH]; intros st; simpl; [done|].
  rewrite loop_body_first_only.
  destruct (loop_body lookup article st); simpl; [apply IH|done].
Qed.

Lemma loop_body_in_bounds lookup article st :
  article_bodies article ≠ [] → is_Some (loop_body lookup article st).
Proof.
  intros Hb. destruct (decide (article_license lookup article = "")) as [Hl|Hl].
  - by rewrite loop_body_drop.
  - destruct (article_bodies article) as [|a0 rest] eqn:Hb'; [done|].
    by rewrite (loop_body_accept _ _ _ _ _ Hl Hb').
Qed.

Lemma main_loop_in_bounds lookup articles : ∀ st,
  Forall (fun article => article_bodies article ≠ []) articles →
  is_Some (main_loop lookup articles st).
Proof.
  induction articles as [|article articles IH]; intros st Hb; simpl; [done|].
  apply Forall_cons in Hb as [Hb Hbs].
  destruct (loop_body_in_bounds lookup article st Hb) as [st1 ->]. simpl.
  by apply IH.
Qed.

(** C9. When every fetched article has at least one article body, the
    normalization pass ends without a panic: every read of the first
    article body is in bounds. The pass is the same on the articles cut
    down to their first body, so no later body is consulted, and the
    title, ISSN, venue name, display date and publication-type label of
    a Record are those of the first body of its article. *)
Theorem first_body_precondition (lookup : gmap string string)
    (articles : list PubmedArticle.t) (st : loop_state) :
  Forall (fun article => article_bodies article ≠ []) articles →
  is_Some (main_loop lookup articles st)
  ∧ main_loop lookup (first_body_only <$> articles) st
    = main_loop lookup articles st
  ∧ (∀ article st0 r,
       article ∈ articles → record_produced lookup article st0 r →
       ∃ a0, article_bodies article !! 0%nat = Some a0
             ∧ Record.Title r = Article.ArticleTitle a0
             ∧ Record.ISSN r = Journal.ISSN (Article.Journal a0)
             ∧ Record.Publication r = Journal.Title (Article.Journal a0)
             ∧ Record.PublicationDate r = pubdate_of a0
             ∧ Record.PublicationType r = pubtype_of a0).
Proof.
  intros Hb. split; [by apply main_loop_in_bounds|].
  split; [apply main_loop_first_only|].
  intros article st0 r _ (_ & a0 & Ha0 & ->)%record_produced_inv.
  by exists a0.
Qed.

Lemma sample_record_produced :
  record_produced (load Samples.oa_file) Samples.licensed1 initial_state
    (assemble (load Samples.oa_file) Samples.licensed1
       (Samples.body "1465-9905" 0 "")).
Proof.
  apply record_produced_intro with [Samples.body "0000-0000" 1999 "Oct"].
  - vm_compute. discriminate.
  - reflexivity.
Defined.

Lemma first_body_precondition_witness :
  is_Some (main_loop (load Samples.oa_file) Samples.fetched initial_state)
  ∧ ∃ r, record_produced (load Samples.oa_file) Samples.licensed1
           initial_state r
         ∧ Record.ISSN r = "1465-9905".
Proof.
  destruct (first_body_precondition (load Samples.oa_file) Samples.fetched
              initial_state) as (Hsome & _ & Hfirst).
  { unfold Samples.fetched.
    repeat apply Forall_cons_2; try (by apply Forall_nil);
      vm_compute; discriminate. }
  split; [exact Hsome|].
  eexists. split; [exact sample_record_produced|].
  destruct (Hfirst Samples.licensed1 initial_state _ (list_elem_of_here _ _)
              sample_record_produced) as (a0 & Ha0 & _ & Hissn & _).
  rewrite Hissn. injection Ha0 as <-. reflexivity.
Defined.

(** ** The display date *)

(** C3. The display date of a Record is "<month>-<year>" from the
    publication date of the journal issue (textual month, numeric year)
    when its year is not zero and its month is not empty, and
    "<month>-<year>" from the article date (numeric month and year)
    otherwise. *)
Theorem display_date (lookup : gmap string string) (article : PubmedArticle.t)
    (st : loop_state) (r : Record.t) :
  record_produced lookup article st r →
  ∃ a0, article_bodies article !! 0%nat = Some a0
    ∧ let p := JournalIssue.PubDate (Journal.JournalIssue (Article.Journal a0)) in
      let q := Article.ArticleDate a0 in
      Record.PublicationDate r
      = if decide (PubDate.Year p ≠ 0 ∧ PubDate.Month p ≠ "")
        then PubDate.Month p +:+ "-" +:+ fmt.d (PubDate.Year p)
        else fmt.d (ArticleDate.Month q) +:+ "-" +:+ fmt.d (ArticleDate.Year q).
Proof.
  intros (_ & a0 & Ha0 & ->)%record_produced_inv.
  exists a0. split; [done|]. simpl. unfold pubdate_of.
  set (p := JournalIssue.PubDate (Journal.JournalIssue (Article.Journal a0))).
  destruct (decide (PubDate.Year p = 0)) as [Hy|Hy],
    (decide (PubDate.Month p = "")) as [Hm|Hm];
    rewrite ?(bool_decide_eq_true_2 _ Hy), ?(bool_decide_eq_false_2 _ Hy),
      ?(bool_decide_eq_true_2 _ Hm), ?(bool_decide_eq_false_2 _ Hm); simpl;
    [rewrite decide_False by tauto..|rewrite decide_True by tauto]; done.
Qed.

(** The scenario of the specification: a journal-issue date with year 0
    and no month, an article date of May 2020. *)
Lemma display_date_witness :
  ∃ r, record_produced (load Samples.oa_file) Samples.licensed1 initial_state r
       ∧ Record.PublicationDate r = "5-2020".
Proof.
  eexists. split; [exact sample_record_produced|].
  destruct (display_date _ _ _ _ sample_record_produced) as (a0 & Ha0 & Hdate).
  rewrite Hdate. injection Ha0 as <-. reflexivity.
Defined.

(** ** The major subjects *)

(** C4. The major subjects of a Record are the descriptors of the
    headings of its article whose descriptor has the major flag "Y" or
    one of whose qualifiers has it, in the order of the heading list;
    only these headings are kept, and their ids, in that order, are what
    the iteration adds to the subject-id worklist. *)
Theorem major_subject_rule (lookup : gmap string string)
    (article : PubmedArticle.t) (st : loop_state) (r : Record.t) :
  record_produced lookup article st r →
  Record.MainSubjects r
  = MeshHeading.DescriptorName <$> filter major_heading (article_headings article)
  ∧ (∀ mesh,
       mesh ∈ filter major_heading (article_headings article)
       ↔ mesh ∈ article_headings article
         ∧ (MeshDescriptorName.MajorTopicYN (MeshHeading.DescriptorName mesh) = "Y"
            ∨ Exists (fun qual => MeshQualifierName.MajorTopicYN qual = "Y")
                (MeshHeading.QualifierNames mesh)))
  ∧ (∀ mesh, is_major mesh = true ↔ major_heading mesh)
  ∧ Record.MainSubjects r
    `sublist_of` MeshHeading.DescriptorName <$> article_headings article
  ∧ ∃ st', loop_body lookup article st = Some st'
           ∧ main_subject_list st'
             = main_subject_list st
               ++ (MeshDescriptorName.MeshID <$> Record.MainSubjects r).
Proof.
  intros Hr. pose proof Hr as (Hl & a0 & Ha0 & ->)%record_produced_inv.
  simpl. unfold major_subjects. split; [done|]. split; [|split; [|split]].
  - intros mesh. rewrite list_elem_of_filter. unfold major_heading. tauto.
  - apply is_major_spec.
  - apply fmap_sublist, sublist_filter.
  - destruct (article_bodies article) as [|a rest] eqn:Hb; [done|].
    eexists. by rewrite (loop_body_accept _ _ _ _ _ Hl Hb).
Qed.

(** The scenario of the specification: a descriptor with the flag "N"
    and a qualifier with the flag "Y" make a major subject; a heading
    without a flag "Y" is left out. *)
Lemma major_subject_rule_witness :
  ∃ r, record_produced (load Samples.oa_file) Samples.licensed1 initial_state r
       ∧ Record.MainSubjects r
         = [MeshDescriptorName.Make "Rett Syndrome" "D015518" "N"].
Proof.
  eexists. split; [exact sample_record_produced|].
  destruct (major_subject_rule _ _ _ _ sample_record_produced) as [Hs _].
  rewrite Hs. reflexivity.
Defined.

(** ** The report *)

(** The writes of [main] to the output file. What they make of the rows
    and columns of the file is in the part on the report as a text, with
    the facts on splitting that it needs. *)


Lemma tab_separated_concat (fields : list string) :
  tab_separated fields = String.concat TAB fields +:+ NL.
Proof.
  induction fields as [|field [|field' fields] IH]; try done.
  change (tab_separated (field :: field' :: fields))
    with (field +:+ TAB +:+ tab_separated (field' :: fields)).
  change (String.concat TAB (field :: field' :: fields))
    with (field +:+ TAB +:+ String.concat TAB (field' :: fields)).
  by rewrite IH, !append_assoc.
Qed.

(** ** The subject column *)

Lemma concat_empty_cons (x : string) (l : list string) :
  String.concat "" (x :: l) = x +:+ String.concat "" l.
Proof. destruct l; simpl; [by rewrite append_nil_r|done]. Qed.

Lemma concat_sep_cons (sep : string) (ps : list string) : ∀ p,
  String.concat sep (p :: ps)
  = p +:+ String.concat "" ((fun q => sep +:+ q) <$> ps).
Proof.
  induction ps as [|q qs IH]; intros p.
  - simpl. by rewrite append_nil_r.
  - change (String.concat sep (p :: q :: qs))
      with (p +:+ sep +:+ String.concat sep (q :: qs)).
    rewrite IH, fmap_cons, concat_empty_cons. by rewrite !append_assoc.
Qed.

Lemma nonempty_entry_index (m : gmap string string) (k : string) :
  match nonempty_entry m k with
  | Some v => index m k = v ∧ v ≠ ""
  | None => index m k = ""
  end.
Proof.
  unfold nonempty_entry, index. destruct (m !! k) as [v|]; simpl; [|done].
  by case_decide.
Qed.

Lemma append_nonempty (s t : string) : s ≠ "" → s +:+ t ≠ "".
Proof. by destruct s. Qed.

(** The parenthesis that the loop appends for one subject. *)
Lemma subject_items_annotation (drug disease : gmap string string)
    (subject : MeshDescriptorName.t) :
  (if decide (subject_items drug disease subject ≠ "")
   then " (" +:+ subject_items drug disease subject +:+ ")" else "")
  = annotation (nonempty_entry drug (MeshDescriptorName.MeshID subject))
      (nonempty_entry disease (MeshDescriptorName.MeshID subject)).
Proof.
  unfold subject_items.
  pose proof (nonempty_entry_index drug (MeshDescriptorName.MeshID subject)) as Hd.
  pose proof (nonempty_entry_index disease (MeshDescriptorName.MeshID subject))
    as He.
  destruct (nonempty_entry drug _) as [d|], (nonempty_entry disease _) as [e|];
    simpl.
  - destruct Hd as [-> Hd], He as [-> He].
    rewrite !(decide_True (P := e ≠ "")), !(decide_True (P := d ≠ "")) by done.
    rewrite decide_True by by do 2 apply append_nonempty.
    by rewrite !append_assoc.
  - destruct Hd as [-> Hd]. rewrite He. simpl. by rewrite decide_True.
  - destruct He as [-> He]. rewrite Hd.
    by rewrite !(decide_True (P := e ≠ "")) by done.
  - by rewrite Hd, He.
Qed.

Lemma main_subjects_loop_later (drug disease : gmap string string)
    (subjects : list MeshDescriptorName.t) : ∀ idx main_subjects,
  idx ≠ 0%nat →
  main_subjects_loop drug disease idx subjects main_subjects
  = main_subjects
    +:+ String.concat ""
          ((fun s =>
              "; " +:+ (MeshDescriptorName.Name s
                        +:+ annotation
                              (nonempty_entry drug (MeshDescriptorName.MeshID s))
                              (nonempty_entry disease (MeshDescriptorName.MeshID s))))
             <$> subjects).
Proof.
  induction subjects as [|s subjects IH]; intros idx acc Hidx.
  - simpl. by rewrite append_nil_r.
  - rewrite fmap_cons, concat_empty_cons. simpl.
    rewrite IH by done. rewrite !(decide_True (P := idx ≠ 0%nat)) by done.
    rewrite <- subject_items_annotation.
    destruct (decide (subject_items drug disease s ≠ ""));
      by rewrite ?append_nil_r, !append_assoc.
Qed.

Lemma main_subjects_loop_spec (drug disease : gmap string string)
    (subjects : list MeshDescriptorName.t) :
  main_subjects_loop drug disease 0 subjects ""
  = subject_column nonempty_entry drug disease subjects.
Proof.
  unfold subject_column. destruct subjects as [|s subjects]; [done|].
  rewrite fmap_cons, concat_sep_cons, <- list_fmap_compose. simpl.
  rewrite main_subjects_loop_later by done.
  rewrite <- subject_items_annotation.
  destruct (decide (subject_items drug disease s ≠ ""));
    by rewrite ?append_nil_r, ?append_nil_l, ?append_assoc.
Qed.

Lemma nonempty_entry_lookup (m : gmap string string) (k : string) :
  map_Forall (fun _ v => v ≠ "") m → nonempty_entry m k = m !! k.
Proof.
  intros Hm. unfold nonempty_entry.
  destruct (m !! k) as [v|] eqn:Hk; [|done].
  rewrite decide_False; [done|]. by apply (Hm k v).
Qed.

(** C7, as amended. The subject column of a row is the names of the
    Record's subjects joined with "; ", where a subject whose id has a
    non-empty entry in the drug map, the disease map or both is followed
    by " (<drug>, <disease>)", with only the entry that is there when
    there is one, and a subject with no non-empty entry in either map is
    followed by nothing. When no entry of the two maps is empty, this is
    the column as the specification words it. *)
Theorem subject_annotations (res : resolution) (record : Record.t) :
  row_fields res record !! 6%nat
  = Some (subject_column nonempty_entry (drug_wikidata_items res)
            (disease_wikidata_items res) (Record.MainSubjects record))
  ∧ (∀ subjects,
       main_subjects_loop (drug_wikidata_items res) (disease_wikidata_items res)
         0 subjects ""
       = subject_column nonempty_entry (drug_wikidata_items res)
           (disease_wikidata_items res) subjects)
  ∧ (map_Forall (fun _ v => v ≠ "") (drug_wikidata_items res) →
     map_Forall (fun _ v => v ≠ "") (disease_wikidata_items res) →
     ∀ subjects,
       subject_column_as_specified (drug_wikidata_items res)
         (disease_wikidata_items res) subjects).
Proof.
  split; [|split].
  - simpl. by rewrite main_subjects_loop_spec.
  - apply main_subjects_loop_spec.
  - intros Hdrug Hdisease subjects. unfold subject_column_as_specified.
    rewrite main_subjects_loop_spec. unfold subject_column. f_equal.
    apply list_fmap_ext. intros _ s _.
    by rewrite !nonempty_entry_lookup.
Qed.

(** The scenario of the specification: an id that resolves to "Q1" in
    the drug map and to "Q2" in the disease map. *)
Lemma subject_annotations_witness :
  main_subjects_loop {[ "D015518" := "Q1" ]} {[ "D015518" := "Q2" ]} 0
    [Samples.subject; MeshDescriptorName.Make "Humans" "D006801" "N"] ""
  = "Rett Syndrome (Q1, Q2); Humans".
Proof.
  destruct (subject_annotations
              (Resolution ∅ ∅ {[ "D015518" := "Q1" ]} {[ "D015518" := "Q2" ]})
              (Record.Make "" [] "" "" "" "" "" "" "")) as (_ & _ & Hspec).
  rewrite Hspec.
  - reflexivity.
  - apply map_Forall_singleton. discriminate.
  - apply map_Forall_singleton. discriminate.
Defined.

(** C7, as the specification words it, fails on a drug map that has the
    subject's id as a key with an empty item: the id resolves, and the
    subject gets no annotation. *)
Lemma subject_column_as_specified_fails :
  ¬ subject_column_as_specified {[ "D015518" := "" ]} ∅ [Samples.subject].
Proof. intros H. vm_compute in H. discriminate. Qed.

(** ** The run as a whole *)


(** * Further properties of the code *)

(** ** Splitting and trimming *)

Lemma no_newline_free_of (s : string) :
  no_newline s ↔ free_of strings.newline s.
Proof. induction s as [|c s IH]; simpl; [done|]. by rewrite IH. Qed.

Lemma free_of_append (c : ascii) (s t : string) :
  free_of c (s +:+ t) ↔ free_of c s ∧ free_of c t.
Proof.
  induction s as [|c' s IH].
  - rewrite append_nil_l. simpl. tauto.
  - rewrite append_cons. simpl. rewrite IH. tauto.
Qed.

Lemma Split_nonempty (s : string) (sep : ascii) : strings.Split s sep ≠ [].
Proof.
  destruct s as [|c s]; simpl; [done|].
  destruct (decide (c = sep)); [done|]. by destruct (strings.Split s sep).
Qed.

Lemma Split_cons_ne (c sep : ascii) (s : string) :
  c ≠ sep →
  ∃ field fields, strings.Split s sep = field :: fields
                  ∧ strings.Split (String c s) sep = String c field :: fields.
Proof.
  intros Hc. simpl. rewrite decide_False by done.
  pose proof (Split_nonempty s sep) as Hne.
  destruct (strings.Split s sep) as [|field fields]; [done|]. eauto.
Qed.

(** No field of a split has the separator, and a byte that is not in
    the string is in none of its fields. *)
Lemma Split_free_of_sep (s : string) (sep : ascii) :
  Forall (free_of sep) (strings.Split s sep).
Proof.
  induction s as [|c s IH]; simpl; [by repeat constructor|].
  destruct (decide (c = sep)) as [->|Hc]; [by constructor|].
  destruct (strings.Split s sep) as [|field fields]; [by repeat constructor|].
  apply Forall_cons in IH as [Hf Hfs]. by constructor.
Qed.

Lemma Split_free_of (s : string) (sep c : ascii) :
  free_of c s → Forall (free_of c) (strings.Split s sep).
Proof.
  induction s as [|c' s IH]; simpl; [by repeat constructor|].
  intros [Hc Hs]. specialize (IH Hs).
  destruct (decide (c' = sep)) as [->|Hsep]; [by constructor|].
  destruct (strings.Split s sep) as [|field fields]; [by repeat constructor|].
  apply Forall_cons in IH as [Hf Hfs]. by constructor.
Qed.

(** A byte other than the separator, put at the end of a string, goes
    to the end of the last field. *)
Lemma Split_snoc (s : string) (sep c : ascii) :
  c ≠ sep →
  strings.Split (s +:+ String c "") sep
  = append_to_last c (strings.Split s sep).
Proof.
  intros Hc. induction s as [|c' s IH].
  - rewrite append_nil_l. simpl. by rewrite decide_False.
  - rewrite append_cons. simpl. rewrite IH.
    pose proof (Split_nonempty s sep) as Hne.
    destruct (decide (c' = sep)).
    + by destruct (strings.Split s sep).
    + destruct (strings.Split s sep) as [|f [|f' fs]]; done.
Qed.

(** Splitting the fields joined by the separator gives the fields back. *)
Lemma Split_concat (sep : ascii) (fields : list string) :
  fields ≠ [] → Forall (free_of sep) fields →
  strings.Split (String.concat (String sep "") fields) sep = fields.
Proof.
  assert (∀ field rest, free_of sep field →
            strings.Split (field +:+ String sep rest) sep
            = field :: strings.Split rest sep) as Hfield.
  { intros field rest. induction field as [|c field IH]; intros Hf.
    - rewrite append_nil_l. simpl. by rewrite decide_True.
    - destruct Hf as [Hc Hf]. rewrite append_cons. simpl.
      rewrite decide_False by done. by rewrite (IH Hf). }
  assert (∀ field, free_of sep field → strings.Split field sep = [field])
    as Hlast.
  { induction field as [|c field IH]; intros Hf; [done|].
    destruct Hf as [Hc Hf]. simpl. rewrite decide_False by done.
    by rewrite (IH Hf). }
  induction fields as [|field [|field' fields] IH]; intros Hne Hfree; [done|..].
  - apply Forall_cons in Hfree as [Hf _]. by apply Hlast.
  - apply Forall_cons in Hfree as [Hf Hfree].
    change (String.concat (String sep "") (field :: field' :: fields))
      with (field +:+ String sep "" +:+
            String.concat (String sep "") (field' :: fields)).
    rewrite append_cons, append_nil_l, (Hfield _ _ Hf).
    by rewrite IH.
Qed.

Lemma slice_to_append (s t : string) :
  strings.slice_to (String.length s) (s +:+ t) = s.
Proof.
  induction s as [|c s IH]; [by destruct t|].
  rewrite append_cons. simpl. by rewrite IH.
Qed.

Lemma slice_from_append (s t : string) :
  strings.slice_from (String.length s) (s +:+ t) = t.
Proof. induction s as [|c s IH]; [done|]. by rewrite append_cons. Qed.

Lemma TrimSuffix_append (s suffix : string) :
  strings.TrimSuffix (s +:+ suffix) suffix = s.
Proof.
  unfold strings.TrimSuffix, strings.HasSuffix.
  rewrite length_append.
  replace (String.length s + String.length suffix - String.length suffix)%nat
    with (String.length s) by lia.
  rewrite slice_from_append, slice_to_append.
  rewrite bool_decide_eq_true_2 by lia. by rewrite bool_decide_eq_true_2.
Qed.

(** ** What a line of the license file stores *)

Lemma length_zero_empty (s : string) : (0 < String.length s)%nat ↔ s ≠ "".
Proof. destruct s; simpl; [split; [lia|done]|split; [done|lia]]. Qed.

Lemma length_append_to_last (c : ascii) (fields : list string) :
  length (append_to_last c fields) = length fields.
Proof.
  induction fields as [|f [|f' fs] IH]; try done.
  change (append_to_last c (f :: f' :: fs))
    with (f :: append_to_last c (f' :: fs)).
  simpl in *. by rewrite IH.
Qed.

Lemma Split_terminated (body : string) :
  strings.Split (terminated body) strings.tab
  = append_to_last strings.newline (strings.Split body strings.tab).
Proof. by apply Split_snoc. Qed.

(** [process_line] in terms of the keys and of the license of the line. *)
Lemma process_line_keys (line : string) (st : loader_state) :
  lookup (process_line line st)
  = foldl (fun m key => <[key := line_license line]> m) (lookup st)
      (line_keys line)
  ∧ stdout (process_line line st)
    = stdout st ++ (if decide (line_echoed line) then [line] else []).
Proof.
  unfold process_line, line_keys, line_license, line_echoed.
  destruct (decide (length (strings.Split line strings.tab) ≠ 5%nat)) as [Hn|Hn].
  - simpl. rewrite decide_False by tauto. by rewrite app_nil_r.
  - apply dec_stable in Hn.
    destruct (decide (0 < String.length
                (strings.Split line strings.tab !!! 2%nat))%nat) as [Hp|Hp];
      destruct (decide (length (strings.Split
                  (strings.Split line strings.tab !!! 3%nat) strings.colon)
                = 2%nat)); simpl;
      (split; [done|]);
      rewrite length_zero_empty in Hp;
      try (rewrite decide_False by tauto; by rewrite app_nil_r);
      apply dec_stable in Hp; by rewrite decide_True.
Qed.

Lemma process_line_five_fields (body f0 f1 f2 f3 f4 : string)
    (st : loader_state) :
  no_newline body →
  strings.Split body strings.tab = [f0; f1; f2; f3; f4] →
  lookup (process_line (terminated body) st)
  = (if decide (f2 = "") then fun m => m else <[f2 := f4]>)
      (match strings.Split f3 strings.colon with
       | [_; pmid] => <[pmid := f4]> (lookup st)
       | _ => lookup st
       end)
  ∧ stdout (process_line (terminated body) st)
    = if decide (f2 = "") then stdout st ++ [terminated body] else stdout st.
Proof.
  intros Hb Hs.
  assert (strings.Split (terminated body) strings.tab
          = [f0; f1; f2; f3; f4 +:+ NL]) as Hparts.
  { by rewrite (Split_terminated body), Hs. }
  assert (line_license (terminated body) = f4) as Hlicense.
  { unfold line_license. rewrite Hparts. apply TrimSuffix_append. }
  assert (line_keys (terminated body)
          = match strings.Split f3 strings.colon with
            | [_; pmid] => [pmid]
            | _ => []
            end ++ (if decide (f2 = "") then [] else [f2])) as Hkeys.
  { unfold line_keys. rewrite Hparts. simpl. f_equal.
    - by destruct (strings.Split f3 strings.colon) as [|a [|b [|c l]]].
    - by destruct f2. }
  assert (line_echoed (terminated body) ↔ f2 = "") as Hechoed.
  { unfold line_echoed. rewrite Hparts. simpl. tauto. }
  destruct (process_line_keys (terminated body) st) as [-> ->].
  rewrite Hlicense, Hkeys, foldl_app. split.
  - destruct (strings.Split f3 strings.colon) as [|a [|b [|c l]]];
      by destruct (decide (f2 = "")).
  - destruct (decide (f2 = "")) as [Hf2|Hf2].
    + by rewrite decide_True by tauto.
    + rewrite decide_False by tauto. by rewrite app_nil_r.
Qed.

(** X1. A line of five fields stores its fifth field, without the
    newline, as the license: under what follows the colon of the fourth
    field when that field has exactly one colon, and then under the third
    field when that is not empty. Nothing else in the table changes, and
    the line is printed exactly when its third field is empty. *)
Theorem process_line_fields (body f0 f1 f2 f3 f4 : string) (st : loader_state) :
  no_newline body →
  strings.Split body strings.tab = [f0; f1; f2; f3; f4] →
  lookup (process_line (terminated body) st)
  = (if decide (f2 = "") then fun m => m else <[f2 := f4]>)
      (match strings.Split f3 strings.colon with
       | [_; pmid] => <[pmid := f4]> (lookup st)
       | _ => lookup st
       end)
  ∧ stdout (process_line (terminated body) st)
    = if decide (f2 = "") then stdout st ++ [terminated body] else stdout st.
Proof. apply process_line_five_fields. Qed.

Lemma process_line_fields_witness :
  lookup (process_line (terminated Samples.paper1) (LoaderState ∅ []))
  = <["PMC17774" := "CC BY"]> (<["11056661" := "CC BY"]> ∅)
  ∧ stdout (process_line (terminated Samples.paper1) (LoaderState ∅ [])) = [].
Proof.
  apply (process_line_fields Samples.paper1 "p" "c" "PMC17774" "PMID:11056661"
           "CC BY" (LoaderState ∅ [])).
  - vm_compute. repeat split; discriminate.
  - reflexivity.
Defined.

(** ** The table and the output of the loader *)

Lemma foldl_insert_lookup (keys : list string) (v : string) :
  ∀ (m : gmap string string) (k : string),
  foldl (fun m key => <[key := v]> m) m keys !! k
  = if decide (k ∈ keys) then Some v else m !! k.
Proof.
  induction keys as [|key keys IH]; intros m k.
  - by rewrite decide_False by apply not_elem_of_nil.
  - simpl. rewrite IH. destruct (decide (k ∈ keys)) as [Hin|Hin].
    + by rewrite decide_True by by right.
    + destruct (decide (k = key)) as [->|Hne].
      * rewrite lookup_insert_eq. by rewrite decide_True by by left.
      * rewrite lookup_insert_ne by done.
        rewrite decide_False; [done|].
        by intros [?|?]%elem_of_cons.
Qed.

Lemma loader_fold_lookup (lines : list string) (k : string) :
  ∀ st,
  lookup (fold_left (fun st body => process_line (terminated body) st) lines st)
    !! k
  = match last (filter (fun body => k ∈ line_keys (terminated body)) lines) with
    | Some body => Some (line_license (terminated body))
    | None => lookup st !! k
    end.
Proof.
  induction lines as [|body lines IH]; intros st; simpl; [done|].
  rewrite IH, filter_cons.
  destruct (process_line_keys (terminated body) st) as [-> _].
  rewrite foldl_insert_lookup.
  destruct (decide (k ∈ line_keys (terminated body))) as [Hin|Hin].
  - destruct (filter _ lines) as [|b bs] eqn:Hf; [done|].
    change (last (body :: b :: bs)) with (last (b :: bs)).
    destruct (last (b :: bs)) eqn:Hlast; [done|]. by apply last_None in Hlast.
  - done.
Qed.

Lemma loader_fold_stdout (lines : list string) : ∀ st,
  stdout (fold_left (fun st body => process_line (terminated body) st) lines st)
  = stdout st
    ++ (terminated <$> filter (fun body => line_echoed (terminated body)) lines).
Proof.
  induction lines as [|body lines IH]; intros st; simpl.
  - by rewrite app_nil_r.
  - rewrite IH, filter_cons.
    destruct (process_line_keys (terminated body) st) as [_ ->].
    destruct (decide (line_echoed (terminated body)));
      by rewrite <- app_assoc.
Qed.

(** X2. The table that the loader returns maps an id to the license of
    the last newline-terminated line of the file that stores under that
    id, and has no entry for an id under which no line stores: a later
    line replaces the license of an earlier one. *)
Theorem last_line_wins (lines : list string) (tail k : string) :
  Forall no_newline lines → no_newline tail →
  load (file_of lines tail) !! k
  = (fun body => line_license (terminated body))
      <$> last (filter (fun body => k ∈ line_keys (terminated body)) lines).
Proof.
  intros Hl Ht. unfold load.
  rewrite LoadLicenses_loop_lines by done.
  rewrite loader_fold_lookup. by destruct (last _).
Qed.

Lemma last_line_wins_witness :
  load (file_of [Samples.paper1; Samples.paper2; Fixtures.paper_relicensed] "")
    !! "11056661"
  = Some "CC BY-NC".
Proof.
  rewrite (last_line_wins
             [Samples.paper1; Samples.paper2; Fixtures.paper_relicensed] "").
  - reflexivity.
  - repeat apply Forall_cons_2; try (by apply Forall_nil);
      vm_compute; repeat split; discriminate.
  - exact I.
Defined.

(** X3. What the loader prints is the newline-terminated lines of five
    fields whose third field, the PMC id, is empty, whole and in the
    order of the file; it prints nothing else. *)
Theorem loader_output (fs : gmap string string) (filename : string)
    (lines : list string) (tail : string) (st : loader_state) :
  fs !! filename = Some (file_of lines tail) →
  Forall no_newline lines → no_newline tail →
  LoadLicenses fs filename = Some st →
  stdout st
  = terminated <$> filter (fun body => line_echoed (terminated body)) lines.
Proof.
  intros Hf Hl Ht. unfold LoadLicenses. rewrite Hf. intros [= <-].
  rewrite LoadLicenses_loop_lines by done. by rewrite loader_fold_stdout.
Qed.

Lemma loader_output_witness :
  ∃ st,
    LoadLicenses
      {[ "oa_file_list.txt" :=
           file_of [Samples.date_line; Fixtures.paper_no_pmc; Samples.paper1] "" ]}
      "oa_file_list.txt" = Some st
    ∧ stdout st = [terminated Fixtures.paper_no_pmc].
Proof.
  eexists. split; [reflexivity|].
  rewrite (loader_output
             {[ "oa_file_list.txt" :=
                  file_of [Samples.date_line; Fixtures.paper_no_pmc;
                           Samples.paper1] "" ]}
             "oa_file_list.txt"
             [Samples.date_line; Fixtures.paper_no_pmc; Samples.paper1] "").
  - reflexivity.
  - reflexivity.
  - repeat apply Forall_cons_2; try (by apply Forall_nil);
      vm_compute; repeat split; discriminate.
  - exact I.
  - reflexivity.
Defined.

Lemma process_line_clean (body : string) (st : loader_state) :
  no_newline body →
  map_Forall (fun k v => clean k ∧ clean v) (lookup st) →
  map_Forall (fun k v => clean k ∧ clean v)
    (lookup (process_line (terminated body) st)).
Proof.
  intros Hb Hst.
  assert (Forall clean (strings.Split body strings.tab)) as Hfields.
  { apply Forall_and. split; [apply Split_free_of_sep|].
    by apply Split_free_of, no_newline_free_of. }
  destruct (strings.Split body strings.tab)
    as [|f0 [|f1 [|f2 [|f3 [|f4 [|f5 fs]]]]]] eqn:Hs;
    try (unfold process_line;
         rewrite (Split_terminated body), length_append_to_last, Hs;
         by rewrite decide_True by (simpl; lia)).
  destruct (process_line_five_fields body f0 f1 f2 f3 f4 st Hb Hs) as [-> _].
  apply Forall_cons in Hfields as [_ Hfields].
  apply Forall_cons in Hfields as [_ Hfields].
  apply Forall_cons in Hfields as [Hf2 Hfields].
  apply Forall_cons in Hfields as [Hf3 Hfields].
  apply Forall_cons in Hfields as [Hf4 _].
  assert (Forall clean (strings.Split f3 strings.colon)) as Hpmid.
  { destruct Hf3. apply Forall_and. by split; apply Split_free_of. }
  assert (map_Forall (fun k v => clean k ∧ clean v)
            (match strings.Split f3 strings.colon with
             | [_; pmid] => <[pmid := f4]> (lookup st)
             | _ => lookup st
             end)) as Hfirst.
  { destruct (strings.Split f3 strings.colon) as [|a [|b [|c l]]]; try done.
    apply Forall_cons in Hpmid as [_ Hpmid].
    apply Forall_cons in Hpmid as [Hb' _].
    by apply map_Forall_insert_2. }
  destruct (decide (f2 = "")); [done|]. by apply map_Forall_insert_2.
Qed.

Lemma LoadLicenses_loop_clean (rd : string) : ∀ cur st,
  no_newline cur →
  map_Forall (fun k v => clean k ∧ clean v) (lookup st) →
  map_Forall (fun k v => clean k ∧ clean v)
    (lookup (LoadLicenses_loop cur rd st)).
Proof.
  induction rd as [|c rd IH]; intros cur st Hcur Hst; simpl; [done|].
  destruct (decide (c = strings.newline)) as [->|Hc].
  - apply IH; [done|]. by apply (process_line_clean cur).
  - apply IH; [|done].
    apply no_newline_free_of, free_of_append.
    split; [by apply no_newline_free_of|by split].
Qed.

(** X4. Whatever the bytes of the license file, no id and no license of
    the table that the loader returns has a tab or a newline in it. *)
Theorem loaded_table_clean (contents k v : string) :
  load contents !! k = Some v → clean k ∧ clean v.
Proof.
  intros Hk. unfold load in Hk.
  by apply (LoadLicenses_loop_clean contents "" (LoaderState ∅ []) I
              (map_Forall_empty _) k v).
Qed.

Lemma loaded_table_clean_witness : clean "PMC17774" ∧ clean "CC BY".
Proof.
  apply (loaded_table_clean Samples.oa_file). reflexivity.
Defined.

(** ** Panics, counts and coverage of the normalization pass *)

Lemma loop_body_None lookup article st :
  loop_body lookup article st = None
  ↔ licensed lookup article ∧ article_bodies article = [].
Proof.
  unfold licensed.
  destruct (decide (article_license lookup article = "")) as [Hl|Hl].
  - rewrite (loop_body_drop _ _ _ Hl). split; [done|]. by intros [Hl' _].
  - destruct (article_bodies article) as [|a0 rest] eqn:Hb.
    + by rewrite (loop_body_panic _ _ _ Hl Hb).
    + rewrite (loop_body_accept _ _ _ _ _ Hl Hb). split; [done|].
      by intros [_ ?].
Qed.

Lemma main_loop_None (lookup : gmap string string)
    (articles : list PubmedArticle.t) (st : loop_state) :
  main_loop lookup articles st = None
  ↔ Exists (fun article => licensed lookup article
                           ∧ article_bodies article = []) articles.
Proof.
  revert st. induction articles as [|article articles IH]; intros st; simpl.
  - rewrite Exists_nil. split; [done|tauto].
  - rewrite Exists_cons, <- (loop_body_None lookup article st).
    destruct (loop_body lookup article st) as [st1|]; simpl.
    + rewrite IH. split; [by right|]. by intros [?|?].
    + split; [by left|done].
Qed.

(** X5. The pass panics exactly when some article that has a license has
    no article body; an article without a license and without a body is
    dropped like any other. The state the pass starts from plays no
    role. *)
Theorem pass_panics (lookup : gmap string string)
    (articles : list PubmedArticle.t) (st : loop_state) :
  main_loop lookup articles st = None
  ↔ Exists (fun article => licensed lookup article
                           ∧ article_bodies article = []) articles.
Proof. apply main_loop_None. Qed.

Lemma pass_panics_witness :
  main_loop (load Samples.oa_file)
    [Samples.licensed1; Fixtures.bodiless; Samples.unlicensed] initial_state
  = None
  ∧ is_Some (main_loop (load Samples.oa_file)
               [Samples.licensed1; with_bodies Samples.unlicensed []]
               initial_state).
Proof.
  split.
  - apply pass_panics. apply Exists_cons_tl, Exists_cons_hd.
    split; [|reflexivity]. vm_compute. discriminate.
  - apply not_eq_None_Some. rewrite pass_panics.
    intros H. apply Exists_cons in H as [[_ H]|H]; [discriminate|].
    apply Exists_cons in H as [[H _]|H]; [by apply H|].
    by apply Exists_nil in H.
Defined.

(** X8. The articles of a fetch result are normalized one by one, and no
    article changes what the pass makes of another: when the passes over
    two fetch results end without a panic, the pass over the first
    followed by the second ends with the Records and the worklists of
    the first followed by those of the second. *)
Theorem pass_articlewise (lookup : gmap string string)
    (articles1 articles2 : list PubmedArticle.t) (st1 st2 : loop_state) :
  main_loop lookup articles1 initial_state = Some st1 →
  main_loop lookup articles2 initial_state = Some st2 →
  main_loop lookup (articles1 ++ articles2) initial_state
  = Some (LoopState (records st1 ++ records st2)
            (pmcid_list st1 ++ pmcid_list st2)
            (issn_list st1 ++ issn_list st2)
            (main_subject_list st1 ++ main_subject_list st2)).
Proof.
  intros H1 H2.
  destruct (main_loop lookup (articles1 ++ articles2) initial_state)
    as [st|] eqn:H.
  - apply main_loop_spec in H as (Hr & Hp & Hi & Hs).
    apply main_loop_spec in H1 as (-> & -> & -> & ->).
    apply main_loop_spec in H2 as (-> & -> & -> & ->).
    destruct st as [rs ps isn ss]. simpl in *. subst.
    by rewrite !omap_app, !fmap_app, !filter_app, concat_app.
  - apply main_loop_None, Exists_app in H as [H|H].
    + apply (main_loop_None lookup articles1 initial_state) in H. congruence.
    + apply (main_loop_None lookup articles2 initial_state) in H. congruence.
Qed.

Lemma pass_articlewise_witness :
  ∃ st1 st2,
    main_loop (load Samples.oa_file) [Samples.licensed1] initial_state
    = Some st1
    ∧ main_loop (load Samples.oa_file)
        [Samples.unlicensed; Samples.licensed2] initial_state
      = Some st2
    ∧ main_loop (load Samples.oa_file) Samples.fetched initial_state
      = Some (LoopState (records st1 ++ records st2)
                (pmcid_list st1 ++ pmcid_list st2)
                (issn_list st1 ++ issn_list st2)
                (main_subject_list st1 ++ main_subject_list st2)).
Proof.
  eexists _, _. split; [reflexivity|]. split; [reflexivity|].
  apply (pass_articlewise (load Samples.oa_file) [Samples.licensed1]
           [Samples.unlicensed; Samples.licensed2]); reflexivity.
Defined.

Lemma index_nonempty (m : gmap string string) (k : string) :
  index m k ≠ "" → m !! k = Some (index m k).
Proof. unfold index. by destruct (m !! k). Qed.

Lemma elem_of_normalized (lookup : gmap string string)
    (articles : list PubmedArticle.t) (r : Record.t) :
  r ∈ omap (normalize lookup) articles →
  ∃ article a0, article ∈ articles ∧ licensed lookup article
                ∧ article_bodies article !! 0%nat = Some a0
                ∧ r = assemble lookup article a0.
Proof.
  intros (article & Hin & Hn)%list_elem_of_omap. unfold normalize in Hn.
  destruct (decide (article_license lookup article = "")); [done|].
  destruct (article_bodies article) as [|a0 rest] eqn:Hb; [done|].
  injection Hn as <-. exists article, a0. by rewrite Hb.
Qed.

(** X6. Every Record of a pass has a license that is not empty, and this
    license is the entry of the table under the Record's PMID or under
    its PMC id. *)
Theorem records_licensed (lookup : gmap string string)
    (articles : list PubmedArticle.t) (st : loop_state) (r : Record.t) :
  main_loop lookup articles initial_state = Some st →
  r ∈ records st →
  Record.License r ≠ ""
  ∧ (lookup !! Record.PMID r = Some (Record.License r)
     ∨ lookup !! Record.PMCID r = Some (Record.License r)).
Proof.
  intros (Hr & _)%main_loop_spec. simpl in Hr. rewrite Hr.
  intros (article & a0 & _ & Hl & _ & ->)%elem_of_normalized. simpl.
  split; [done|]. unfold licensed, article_license in *.
  rewrite find_license_spec in *.
  destruct (decide (index lookup (article_pmid article) ≠ ""));
    [left|right]; by apply index_nonempty.
Qed.

Lemma records_licensed_witness :
  Forall
    (fun r =>
       Record.License r ≠ ""
       ∧ (load Samples.oa_file !! Record.PMID r = Some (Record.License r)
          ∨ load Samples.oa_file !! Record.PMCID r = Some (Record.License r)))
    (records Samples.pass_state).
Proof.
  apply Forall_forall. intros r.
  apply (records_licensed (load Samples.oa_file) Samples.fetched).
  vm_compute. reflexivity.
Defined.

(** X7. The worklists cover what the writer looks up: the PMC id and the
    ISSN of every Record, when not empty, and the id of every subject of
    every Record are in the lists that are sent to be resolved. *)
Theorem worklists_cover_records (lookup : gmap string string)
    (articles : list PubmedArticle.t) (st : loop_state) (r : Record.t) :
  main_loop lookup articles initial_state = Some st →
  r ∈ records st →
  (Record.PMCID r ≠ "" → Record.PMCID r ∈ pmcid_list st)
  ∧ (Record.ISSN r ≠ "" → Record.ISSN r ∈ issn_list st)
  ∧ (∀ s, s ∈ Record.MainSubjects r →
          MeshDescriptorName.MeshID s ∈ main_subject_list st).
Proof.
  intros (Hr & Hp & Hi & Hs)%main_loop_spec Hin. simpl in *.
  rewrite Hp, Hi, Hs, <- Hr. split; [|split].
  - intros Hne. apply list_elem_of_filter. split; [done|].
    rewrite Hr in Hin.
    apply elem_of_normalized in Hin as (article & a0 & Ha & _ & _ & ->).
    simpl. by apply list_elem_of_fmap_2.
  - intros Hne. apply list_elem_of_filter. split; [done|].
    by apply list_elem_of_fmap_2.
  - intros s Hsub. apply list_elem_of_In, in_concat.
    exists (MeshDescriptorName.MeshID <$> Record.MainSubjects r).
    split; apply list_elem_of_In.
    + by apply (list_elem_of_fmap_2
                  (fun r => MeshDescriptorName.MeshID <$> Record.MainSubjects r)).
    + by apply list_elem_of_fmap_2.
Qed.

Lemma worklists_cover_records_witness :
  Forall
    (fun r =>
       (Record.PMCID r ≠ "" → Record.PMCID r ∈ pmcid_list Samples.pass_state)
       ∧ (Record.ISSN r ≠ "" → Record.ISSN r ∈ issn_list Samples.pass_state)
       ∧ (∀ s, s ∈ Record.MainSubjects r →
               MeshDescriptorName.MeshID s
               ∈ main_subject_list Samples.pass_state))
    (records Samples.pass_state).
Proof.
  apply Forall_forall. intros r.
  apply (worklists_cover_records (load Samples.oa_file) Samples.fetched).
  vm_compute. reflexivity.
Defined.

(** X9. The PMC column of the license file licenses no article by
    itself: when every id of the table that has a license starts with
    "PMC", as the ids of the PMC column do, an article whose PMID and
    whose PMC id without its prefix do not start with "PMC" has no
    license and is dropped, also when the table has its PMC id. *)
Theorem pmc_column_needs_pmid (lookup : gmap string string)
    (article : PubmedArticle.t) (st : loop_state) :
  (∀ k, labelled lookup k → strings.HasPrefix k "PMC" = true) →
  strings.HasPrefix (article_pmid article) "PMC" = false →
  strings.HasPrefix (article_pmcid article) "PMC" = false →
  article_license lookup article = ""
  ∧ loop_body lookup article st
    = Some (LoopState (records st) (pmcid_list_after article st)
              (issn_list st) (main_subject_list st)).
Proof.
  intros Hkeys Hpmid Hpmcid.
  assert (article_license lookup article = "") as Hl.
  { destruct (decide (article_license lookup article = "")) as [|Hl]; [done|].
    apply find_license_labelled in Hl as [Hl|Hl];
      apply Hkeys in Hl; congruence. }
  split; [done|]. by apply loop_body_drop.
Qed.

Lemma pmc_column_needs_pmid_witness :
  load (file_of [Fixtures.paper_pmc_only] "") !! "PMC17776" = Some "CC BY-NC"
  ∧ article_ids Fixtures.pmc_only = [ArticleID.Make "PMC17776" "pmc"]
  ∧ article_license (load (file_of [Fixtures.paper_pmc_only] ""))
      Fixtures.pmc_only = "".
Proof.
  split; [reflexivity|]. split; [reflexivity|].
  apply (pmc_column_needs_pmid (load (file_of [Fixtures.paper_pmc_only] ""))
           Fixtures.pmc_only initial_state).
  - intros k (l & Hk & _).
    change (load (file_of [Fixtures.paper_pmc_only] ""))
      with ({[ "PMC17776" := "CC BY-NC" ]} : gmap string string) in Hk.
    apply lookup_singleton_Some in Hk as [<- _]. reflexivity.
  - reflexivity.
  - reflexivity.
Defined.

Lemma normalized_length (lookup : gmap string string)
    (articles : list PubmedArticle.t) :
  Forall (fun article => licensed lookup article → article_bodies article ≠ [])
    articles →
  length (omap (normalize lookup) articles)
  = length (filter (licensed lookup) articles).
Proof.
  induction articles as [|article articles IH]; intros Hb; [done|].
  apply Forall_cons in Hb as [Hb Hbs]. simpl. rewrite filter_cons.
  unfold normalize at 1. unfold licensed at 1 in Hb. unfold licensed at 2.
  destruct (decide (article_license lookup article = "")) as [Hl|Hl].
  - rewrite decide_False by tauto. by apply IH.
  - rewrite decide_True by done.
    destruct (article_bodies article) as [|a0 rest]; [by destruct Hb|].
    simpl. f_equal. by apply IH.
Qed.

(** X10. The number of Records after a pass, the count that [main]
    prints, is the number of the articles that have a license; the other
    articles are the dropped ones. *)
Theorem records_count (lookup : gmap string string)
    (articles : list PubmedArticle.t) (st : loop_state) :
  main_loop lookup articles initial_state = Some st →
  length (records st) = length (filter (licensed lookup) articles)
  ∧ (length (records st) ≤ length articles)%nat.
Proof.
  intros Hpass.
  assert (length (records st) = length (filter (licensed lookup) articles))
    as Hcount.
  { pose proof Hpass as (-> & _)%main_loop_spec. simpl.
    apply normalized_length, Forall_forall. intros article Hin Hl Hb.
    assert (main_loop lookup articles initial_state = None) as Hnone.
    { apply main_loop_None, Exists_exists. by exists article. }
    congruence. }
  split; [done|]. rewrite Hcount. apply length_filter.
Qed.

Lemma records_count_witness :
  length (records Samples.pass_state) = 2%nat
  ∧ length (filter (licensed (load Samples.oa_file)) Samples.fetched) = 2%nat.
Proof.
  destruct (records_count (load Samples.oa_file) Samples.fetched
              Samples.pass_state) as [Hcount _].
  { vm_compute. reflexivity. }
  rewrite <- Hcount. split; reflexivity.
Defined.

(** ** The columns of a row *)

Lemma license_item_known (label : string) :
  index CC_LICENSE_ITEM_IDS label ≠ "" ↔ label ∈ known_labels.
Proof.
  assert (CC_LICENSE_ITEM_IDS
          = <["CC0" := "Q6938433"]> (<["CC BY" := "Q6905323"]>
              (<["CC BY-NC-ND" := "Q6937225"]> (<["CC BY-NC" := "Q6936496"]>
                (<["CC BY 2.5" := "Q18810333"]>
                   (<["CC BY 4.0" := "Q20007257"]> ∅)))))) as -> by reflexivity.
  unfold index, known_labels. rewrite !lookup_insert, lookup_empty.
  repeat (destruct (decide (_ = label)) as [<-|?];
          [simpl; split; [intros _; set_solver|intros _; discriminate]|]).
  simpl. split; [done|]. intros Hin.
  repeat (apply elem_of_cons in Hin as [->|Hin]; [done|]).
  by apply elem_of_nil in Hin.
Qed.

(** X11. The license-item column of a row is an item of the fixed table
    exactly when the Record's license is one of its six labels; for any
    other license the column is empty. *)
Theorem license_item_column (res : resolution) (record : Record.t) :
  row_fields res record !! 5%nat
  = Some (index CC_LICENSE_ITEM_IDS (Record.License record))
  ∧ (index CC_LICENSE_ITEM_IDS (Record.License record) ≠ ""
     ↔ Record.License record ∈ known_labels)
  ∧ (Record.License record ∉ known_labels →
     index CC_LICENSE_ITEM_IDS (Record.License record) = "").
Proof.
  split; [done|]. split; [apply license_item_known|].
  intros Hl. rewrite <- license_item_known in Hl. by apply dec_stable.
Qed.

Lemma license_item_column_witness :
  index CC_LICENSE_ITEM_IDS "NO-CC CODE" = "".
Proof.
  destruct (license_item_column (Resolution ∅ ∅ ∅ ∅)
              (Record.Make "" [] "" "" "" "" "NO-CC CODE" "" ""))
    as (_ & _ & Hunknown).
  apply Hunknown. vm_compute.
  intros Hin. repeat (apply elem_of_cons in Hin as [Hin|Hin]; [discriminate|]).
  by apply elem_of_nil in Hin.
Defined.

(** X12. A row whose twelve fields have no tab splits on tab into these
    twelve fields, the newline of the row at the end of the last one. *)
Theorem row_splits_back (res : resolution) (record : Record.t) :
  Forall (free_of strings.tab) (row_fields res record) →
  strings.Split (format_row res record) strings.tab
  = append_to_last strings.newline (row_fields res record).
Proof.
  intros Hfree. unfold format_row. rewrite tab_separated_concat.
  unfold NL. rewrite Split_snoc by done.
  unfold TAB. by rewrite Split_concat.
Qed.

Lemma row_splits_back_witness :
  strings.Split
    (format_row (Resolution {[ "17774" := "Q1" ]} ∅ ∅ ∅) Fixtures.record)
    strings.tab
  = ["A review"; "Q1"; "11056661"; "17774"; "CC BY"; "Q6905323";
     "Rett Syndrome"; "Oct-1999"; "Arthritis Res."; "1465-9905"; "";
     "Review" +:+ NL].
Proof.
  rewrite row_splits_back.
  - reflexivity.
  - repeat apply Forall_cons_2; try (by apply Forall_nil);
      vm_compute; repeat split; discriminate.
Defined.

Lemma length_Split (s : string) (sep : ascii) :
  length (strings.Split s sep) = S (occurrences sep s).
Proof.
  induction s as [|c s IH]; simpl; [done|].
  destruct (decide (c = sep)); simpl; [by rewrite IH|].
  pose proof (Split_nonempty s sep).
  by destruct (strings.Split s sep).
Qed.

Lemma occurrences_append (c : ascii) (s t : string) :
  occurrences c (s +:+ t) = (occurrences c s + occurrences c t)%nat.
Proof.
  induction s as [|c' s IH]; [done|]. rewrite append_cons. simpl.
  destruct (decide (c' = c)); by rewrite IH.
Qed.

Lemma occurrences_tab_separated (fields : list string) :
  fields ≠ [] →
  S (occurrences strings.tab (tab_separated fields))
  = (length fields + sum_list (occurrences strings.tab <$> fields))%nat.
Proof.
  induction fields as [|field [|field' fields] IH]; intros Hne; [done|..].
  - simpl. rewrite occurrences_append. simpl. lia.
  - change (tab_separated (field :: field' :: fields))
      with (field +:+ TAB +:+ tab_separated (field' :: fields)).
    rewrite !occurrences_append. rewrite fmap_cons.
    change (occurrences strings.tab TAB) with 1%nat.
    specialize (IH ltac:(done)). simpl in *. lia.
Qed.

(** X13. The writer does not escape tabs: the number of columns of a row,
    split on tab, is twelve plus the number of tabs in the fields of the
    Record and in the items resolved for it. *)
Theorem row_columns (res : resolution) (record : Record.t) :
  length (strings.Split (format_row res record) strings.tab)
  = (12 + sum_list (occurrences strings.tab <$> row_fields res record))%nat.
Proof.
  rewrite length_Split. unfold format_row.
  by rewrite occurrences_tab_separated.
Qed.

(** ** The report as a text *)
















(** ** The fetch request *)

Section efetch_facts.

Variable NewRequest : string → string → option http.Request.
Variable ParseQuery : string → gmap string (list string).
Variable Encode : gmap string (list string) → string.
Variable client_Do : http.Request → option http.Response.
Variable Decode : option string → option PubmedArticleSet.t.


(** X15. When the URL of the new request has no query of its own, the
    query of the request that is sent is the encoding of exactly five
    parameters, each with one value: the API key, the database, the
    history handle, the query key and the return mode "xml"; the method
    and the URL are those of the new request. *)
Theorem request_parameters (e : EFetchHistoryRequest.t) (req : http.Request) :
  ParseQuery (http.RawQuery req) = ∅ →
  with_parameters ParseQuery Encode e req
  = http.MakeRequest (http.Method req) (http.URL req)
      (Encode
         (list_to_map
            [("api_key", [EFetchHistoryRequest.APIKey e]);
             ("db", [EFetchHistoryRequest.DB e]);
             ("WebEnv", [EFetchHistoryRequest.WebEnv e]);
             ("query_key", [EFetchHistoryRequest.QueryKey e]);
             ("retmode", ["xml"])])).
Proof.
  intros Hq. unfold with_parameters. rewrite Hq. reflexivity.
Qed.

Lemma Do_inl (e : EFetchHistoryRequest.t) (set : PubmedArticleSet.t) :
  fst (Do NewRequest ParseQuery Encode client_Do Decode e) = inl set
  ↔ EFetchHistoryRequest.APIKey e ≠ ""
    ∧ ∃ req resp,
        NewRequest "GET" EFETCH_URL = Some req
        ∧ client_Do (with_parameters ParseQuery Encode e req) = Some resp
        ∧ http.StatusCode resp = 200
        ∧ Decode (http.Body resp) = Some set.
Proof.
  unfold Do. split.
  - destruct (decide (EFetchHistoryRequest.APIKey e = "")); [done|].
    destruct (NewRequest "GET" EFETCH_URL) as [req|]; [|done].
    destruct (client_Do (with_parameters ParseQuery Encode e req)) as [resp|] eqn:Hresp;
      [|done].
    destruct (decide (http.StatusCode resp ≠ http.StatusOK)) as [Hs|Hs].
    + by destruct (http.Body resp).
    + apply dec_stable in Hs.
      destruct (Decode (http.Body resp)) as [set'|] eqn:Hd; [|done].
      intros [= <-]. split; [done|]. by exists req, resp.
  - intros (Hkey & req & resp & -> & Hresp & Hs & Hd).
    rewrite decide_False by done. simpl. rewrite Hresp.
    rewrite decide_False by (unfold http.StatusOK; lia).
    by rewrite Hd.
Qed.

(** X16. [Do] returns a set of articles exactly when the API key is not
    empty, the request could be made and sent, the status of the
    response is 200 and the body decodes; the set is the decoded one. *)
Theorem Do_succeeds (e : EFetchHistoryRequest.t) (set : PubmedArticleSet.t) :
  fst (Do NewRequest ParseQuery Encode client_Do Decode e) = inl set
  ↔ EFetchHistoryRequest.APIKey e ≠ ""
    ∧ ∃ req resp,
        NewRequest "GET" EFETCH_URL = Some req
        ∧ client_Do (with_parameters ParseQuery Encode e req) = Some resp
        ∧ http.StatusCode resp = 200
        ∧ Decode (http.Body resp) = Some set.
Proof. apply Do_inl. Qed.

(** X17. A response whose status is not 200 is never decoded: the
    result is the error "Status code <status>", followed by ": " and the
    body when the body can be read, whatever the decoder would make of
    the body. *)
Theorem Do_status_error (Decode' : option string → option PubmedArticleSet.t)
    (e : EFetchHistoryRequest.t) (req : http.Request) (resp : http.Response) :
  EFetchHistoryRequest.APIKey e ≠ "" →
  NewRequest "GET" EFETCH_URL = Some req →
  client_Do (with_parameters ParseQuery Encode e req) = Some resp →
  http.StatusCode resp ≠ 200 →
  fst (Do NewRequest ParseQuery Encode client_Do Decode e)
  = inr (Errorf ("Status code " +:+ fmt.d (http.StatusCode resp)
                 +:+ match http.Body resp with
                     | Some body => ": " +:+ body
                     | None => ""
                     end))
  ∧ Do NewRequest ParseQuery Encode client_Do Decode e
    = Do NewRequest ParseQuery Encode client_Do Decode' e.
Proof.
  intros Hkey Hreq Hresp Hs. unfold Do.
  rewrite !decide_False by done. rewrite Hreq. simpl. rewrite Hresp.
  rewrite !decide_True by done.
  destruct (http.Body resp); simpl; [done|]. by rewrite append_nil_r.
Qed.

End efetch_facts.

Lemma request_parameters_witness :
  with_parameters (fun _ => ∅) Fixtures.Encode Fixtures.request
    (http.MakeRequest "GET" EFETCH_URL "")
  = http.MakeRequest "GET" EFETCH_URL
      "WebEnv=MCID_1&api_key=secret&db=pubmed&query_key=1&retmode=xml".
Proof.
  rewrite request_parameters; reflexivity.
Defined.

Lemma Do_succeeds_witness :
  fst (Do Fixtures.NewRequest (fun _ => ∅) Fixtures.Encode
         (Fixtures.server 200) Fixtures.Decode Fixtures.request)
  = inl Fixtures.fetched_set.
Proof.
  apply Do_succeeds. split; [discriminate|].
  eexists _, _. repeat split; reflexivity.
Defined.

Lemma Do_status_error_witness :
  fst (Do Fixtures.NewRequest (fun _ => ∅) Fixtures.Encode
         (Fixtures.server 404) Fixtures.Decode Fixtures.request)
  = inr (Errorf "Status code 404: <PubmedArticleSet/>").
Proof.
  destruct (Do_status_error Fixtures.NewRequest (fun _ => ∅) Fixtures.Encode
              (Fixtures.server 404) Fixtures.Decode Fixtures.Decode
              Fixtures.request (http.MakeRequest "GET" EFETCH_URL "")
              (http.MakeResponse 404 (Some "<PubmedArticleSet/>")))
    as [-> _]; try reflexivity; discriminate.
Defined.

(** ** The run with its fetch request *)


